(** * Flow aggregation and eviction engine of [XDP/xdp_collect.py]

    A shallow embedding of the userspace collector: the per-CPU
    accumulator merge, the eviction sweep [_sweep_flows], the drain and
    the report compiler of [main], with the properties of the
    specification stated and proved (or refuted) on it.

    Modelling conventions.
    - The two BPF hash tables [flows] and [cache] are finite maps from
      flow keys to per-CPU accumulator arrays: [__setitem__] is insert,
      [__delitem__] is delete, [__getitem__] is lookup (raising
      [KeyError] on a missing key) and [items()] is the list of
      bindings, a snapshot.
    - ctypes integer fields and Python integers are [Z]; Python integers
      are unbounded, so sums do not wrap.
    - Python floats (the seconds values [now], [offset], [start/1e9])
      are an abstract type with the operations the program uses, see
      [PyFloat]; the theorems hold for every such arithmetic.
    - Exceptions, the tables and the calls to the kernel loader are
      threaded through a state-and-exception monad [M].
    - What the engine does not decide (the writes of the kernel
      classifier, the clock, Ctrl-C, whether the output file opens)
      is an input of the run, see [Tick] and [Schedule]. *)

From Stdlib Require Import ZArith Ascii String DecimalString HexadecimalString
  DecimalZ HexadecimalZ DecimalN HexadecimalN.
From stdpp Require Import gmap strings list fin_maps sorting.

Local Open Scope Z_scope.

(** ** Data model *)

(** The key of both tables ([attrs] in the source).  The fields are the
    ones [main] reads from it. *)
Record FlowKey := mkFlowKey {
  l2_proto : Z;
  l4_proto : Z;
  src_ip : Z;
  dst_ip : Z;
  src_port : Z;
  dst_port : Z
}.

(** One per-CPU accumulator ([accms[j]] in the source); [end_] is the
    source's field [end]. *)
Record Accm := mkAccm {
  packets : Z;
  bytes : Z;
  start : Z;
  end_ : Z
}.

#[global] Instance FlowKey_eq_dec : EqDecision FlowKey.
Proof. solve_decision. Defined.

#[global] Instance Accm_eq_dec : EqDecision Accm.
Proof. solve_decision. Defined.

Definition FlowKey_to_tuple (k : FlowKey) : Z * Z * Z * Z * Z * Z :=
  (l2_proto k, l4_proto k, src_ip k, dst_ip k, src_port k, dst_port k).

Definition FlowKey_of_tuple (t : Z * Z * Z * Z * Z * Z) : FlowKey :=
  let '(a, b, c, d, e, f) := t in mkFlowKey a b c d e f.

#[global] Instance FlowKey_countable : Countable FlowKey.
Proof.
  apply (inj_countable' FlowKey_to_tuple FlowKey_of_tuple).
  by intros [].
Defined.

Abbreviation Table := (gmap FlowKey (list Accm)).

(** ** Python floats

    The program only converts nanoseconds to seconds ([x/1e9]), adds and
    subtracts, compares, prints a float into a row and parses it back
    for the sort key.  [a > b] on floats is [f_ltb b a].  The laws are
    those of the finite floats: [<] is a strict weak order, [float(s)]
    reads back what [str] printed, and a printed float has no comma. *)
Class PyFloat (F : Type) := {
  f_of_ns : Z → F;
  f_of_int : Z → F;
  f_add : F → F → F;
  f_sub : F → F → F;
  f_ltb : F → F → bool;
  f_str : F → string;
  f_parse : string → option F;
  f_ltb_asym : ∀ x y, f_ltb x y = true → f_ltb y x = false;
  f_leb_trans : ∀ x y z,
    f_ltb y x = false → f_ltb z y = false → f_ltb z x = false;
  f_parse_str : ∀ x, f_parse (f_str x) = Some x;
  f_str_no_comma : ∀ x, index 0 "," (f_str x) = None
}.

(** ** Exceptions, events and the monad *)

Inductive Exn :=
  | KeyboardInterrupt
  | KeyError
  | IndexError
  | AttributeError
  | OverflowError
  | ValueError
  | OSError
  | UnboundLocalError.

(** What the engine does to the outside: the calls to the kernel loader
    and the table mutations, in the order they happen. *)
Inductive Event :=
  | EvAttachXdp
  | EvRemoveXdp
  | EvCacheSet (k : FlowKey) (v : list Accm)
  | EvFlowsDel (k : FlowKey).

#[global] Instance Event_eq_dec : EqDecision Event.
Proof. solve_decision. Defined.

Record World := mkWorld {
  flows : Table;
  cache : Table;
  trace : list Event;
  written : list string
}.

Inductive Result (A : Type) :=
  | Ok (a : A)
  | Raise (e : Exn).
Arguments Ok {A} a.
Arguments Raise {A} e.

Definition M (A : Type) : Type := World → Result A * World.

Definition ret {A} (a : A) : M A := λ w, (Ok a, w).

Definition bind {A B} (c : M A) (k : A → M B) : M B :=
  λ w, match c w with
       | (Ok a, w') => k a w'
       | (Raise e, w') => (Raise e, w')
       end.

Definition raise {A} (e : Exn) : M A := λ w, (Raise e, w).

Notation "'let*' x ':=' c 'in' k" := (bind c (λ x, k))
  (at level 10, x pattern, c at level 100, k at level 200).
Notation "c ;; k" := (bind c (λ _, k))
  (at level 100, k at level 200, right associativity).

(** [try: body except E: handler] for the exceptions [handles] selects. *)
Definition try_except {A} (body : M A) (handles : Exn → bool)
    (handler : M A) : M A :=
  λ w, match body w with
       | (Ok a, w') => (Ok a, w')
       | (Raise e, w') => if handles e then handler w' else (Raise e, w')
       end.

(** [try: body finally: fin].  An exception of [fin] replaces the
    outcome of [body]. *)
Definition try_finally {A} (body : M A) (fin : M unit) : M A :=
  λ w, match body w with
       | (r, w') =>
           match fin w' with
           | (Ok _, w'') => (r, w'')
           | (Raise e, w'') => (Raise e, w'')
           end
       end.

(** A [for] loop whose body updates the loop-carried variables [acc]. *)
Fixpoint for_in {A B} (l : list A) (acc : B) (body : B → A → M B) : M B :=
  match l with
  | [] => ret acc
  | x :: l' => let* acc' := body acc x in for_in l' acc' body
  end.

(** [range(0, n)] *)
Definition range (n : nat) : list nat := seq 0 n.

(** [l[j]] on a list or a ctypes array. *)
Definition getidx {A} (l : list A) (j : nat) : M A :=
  match l !! j with
  | Some a => ret a
  | None => raise IndexError
  end.

(** *** Table operations *)

Definition flows_items : M (list (FlowKey * list Accm)) :=
  λ w, (Ok (map_to_list (flows w)), w).

Definition cache_items : M (list (FlowKey * list Accm)) :=
  λ w, (Ok (map_to_list (cache w)), w).

Definition flows_getitem (k : FlowKey) : M (list Accm) :=
  λ w, match flows w !! k with
       | Some v => (Ok v, w)
       | None => (Raise KeyError, w)
       end.

Definition cache_setitem (k : FlowKey) (v : list Accm) : M unit :=
  λ w, (Ok tt, mkWorld (flows w) (<[k:=v]> (cache w))
                       (trace w ++ [EvCacheSet k v]) (written w)).

Definition flows_delitem (k : FlowKey) : M unit :=
  λ w, match flows w !! k with
       | Some _ => (Ok tt, mkWorld (delete k (flows w)) (cache w)
                                   (trace w ++ [EvFlowsDel k]) (written w))
       | None => (Raise KeyError, w)
       end.

Definition emit (e : Event) : M unit :=
  λ w, (Ok tt, mkWorld (flows w) (cache w) (trace w ++ [e]) (written w)).

Definition f_write (s : string) : M unit :=
  λ w, (Ok tt, mkWorld (flows w) (cache w) (trace w) (written w ++ [s])).

(** ** The engine *)

Definition Zsum (l : list Z) : Z := foldr Z.add 0 l.

(** Minimum and maximum of a non-empty list of stamps. *)
Definition minimum (l : list Z) : option Z :=
  match l with
  | [] => None
  | x :: l' => Some (foldl Z.min x l')
  end.

Definition maximum (l : list Z) : option Z :=
  match l with
  | [] => None
  | x :: l' => Some (foldl Z.max x l')
  end.

(** The shards that recorded at least one packet. *)
Definition recorded (accms : list Accm) : list Accm :=
  filter (λ a, 0 < packets a) accms.

(** The merged view of one flow: [(n_packets, n_bytes, start, end)]. *)
Definition View : Type := Z * Z * Z * Z.

Definition view_packets (v : View) : Z := v.1.1.1.
Definition view_bytes (v : View) : Z := v.1.1.2.
Definition view_start (v : View) : Z := v.1.2.
Definition view_end (v : View) : Z := v.2.

Section Engine.
Context {F : Type} `{PyFloat F}.

(** [CPU_COUNT = os.cpu_count()] *)
Variable CPU_COUNT : nat.

(** *** [_sweep_flows], lines 32-58 *)

(** Lines 44-47: the most recent [end] stamp over all CPUs. *)
Definition recent_step (recent_stamp : Z) (a : Accm) : Z :=
  if end_ a >? recent_stamp then end_ a else recent_stamp.

Definition recent_stamp_of (accms : list Accm) : M Z :=
  for_in (range CPU_COUNT) 0 (λ recent_stamp j,
    let* a := getidx accms j in
    ret (recent_step recent_stamp a)).

(** Lines 50-51: [idle_time = now - (recent_stamp/1e9 + offset)] and
    the test [idle_time > agg_time], in which [agg_time] is an [int]
    that Python compares with the float by value. *)
Definition idle_time (offset now : F) (recent_stamp : Z) : F :=
  f_sub now (f_add (f_of_ns recent_stamp) offset).

Definition exceeds (idle : F) (agg_time : Z) : bool :=
  f_ltb (f_of_int agg_time) idle.

(** Lines 39-52: the first loop.  It runs over the indices of the
    snapshot [cur_flows], that is over its items in order, builds
    [old_flows] and touches neither table. *)
Definition scan_flows (offset : F) (agg_time : Z) (now : F)
    (cur_flows : list (FlowKey * list Accm)) : M (list FlowKey) :=
  for_in cur_flows [] (λ old_flows item,
    let attrs := item.1 in
    let accms := item.2 in
    let* recent_stamp := recent_stamp_of accms in
    if exceeds (idle_time offset now recent_stamp) agg_time
    then ret (old_flows ++ [attrs])
    else ret old_flows).

(** Lines 55-57: the second loop, one transfer per old flow. *)
Definition move_flow (flow : FlowKey) : M unit :=
  let* v := flows_getitem flow in
  cache_setitem flow v ;;
  flows_delitem flow.

Definition evict_flows (old_flows : list FlowKey) : M unit :=
  for_in old_flows tt (λ _ flow, move_flow flow).

(** [now] is the value [time.time()] returns on line 34. *)
Definition _sweep_flows (offset : F) (agg_time : Z) (now : F) : M unit :=
  let* cur_flows := flows_items in
  let* old_flows := scan_flows offset agg_time now cur_flows in
  evict_flows old_flows.

(** Ctrl-C during a sweep.  Python raises [KeyboardInterrupt] between
    two bytecodes of the main thread; the first loop touches no table,
    so what tells one interrupted sweep from another is the number [n]
    of table operations the second loop had done: after an odd number a
    flow is stored in the cache and not yet deleted from the live
    table. *)
Fixpoint evict_flows_until (n : nat) (old_flows : list FlowKey) : M unit :=
  match n, old_flows with
  | S (S n'), flow :: rest => move_flow flow ;; evict_flows_until n' rest
  | 1%nat, flow :: _ =>
      let* v := flows_getitem flow in
      cache_setitem flow v ;;
      raise KeyboardInterrupt
  | _, _ => raise KeyboardInterrupt
  end.

Definition sweep_flows_until (n : nat) (offset : F) (agg_time : Z) (now : F)
    : M unit :=
  let* cur_flows := flows_items in
  let* old_flows := scan_flows offset agg_time now cur_flows in
  evict_flows_until n old_flows.

(** *** The accumulator merge of the report, lines 157-171

    The loop also prints each CPU's packet count to the standard
    output, which is left out. *)

Definition merge_step (v : View) (a : Accm) : View :=
  let '(n_packets, n_bytes, st, en) := v in
  let n_packets := n_packets + packets a in
  let n_bytes := n_bytes + bytes a in
  if st =? -1
  then (n_packets, n_bytes, start a, end_ a)
  else (n_packets, n_bytes, Z.min st (start a), Z.max en (end_ a)).

Definition merge_accms (accms : list Accm) : M View :=
  for_in (range CPU_COUNT) (0, 0, -1, -1) (λ v j,
    let* a := getidx accms j in
    ret (merge_step v a)).

End Engine.

(** ** Rendering *)

Definition comma : string := ",".
Definition newline : string := String "010"%char EmptyString.

(** [str(n)], [int(s)] and [hex(n)] on Python integers. *)
Definition str_int (n : Z) : string :=
  DecimalString.NilZero.string_of_int (Z.to_int n).

Definition int_of_str (s : string) : option Z :=
  option_map Z.of_int (DecimalString.NilZero.int_of_string s).

Definition hex_digits (n : Z) : string :=
  HexadecimalString.NilZero.string_of_uint (N.to_hex_uint (Z.to_N n)).

Definition py_hex (n : Z) : string :=
  if n <? 0 then "-0x" +:+ hex_digits (- n) else "0x" +:+ hex_digits n.

(** [socket.ntohl] and [socket.ntohs]: the argument has to fit the
    unsigned C type, or the call raises [OverflowError]; on a
    little-endian host the bytes are swapped. *)
Definition bswap32 (x : Z) : Z :=
  Z.lor (Z.shiftl (Z.land x 255) 24)
    (Z.lor (Z.shiftl (Z.land (Z.shiftr x 8) 255) 16)
       (Z.lor (Z.shiftl (Z.land (Z.shiftr x 16) 255) 8)
          (Z.land (Z.shiftr x 24) 255))).

Definition bswap16 (x : Z) : Z :=
  Z.lor (Z.shiftl (Z.land x 255) 8) (Z.land (Z.shiftr x 8) 255).

Definition ntohl (little_endian : bool) (x : Z) : M Z :=
  if (0 <=? x) && (x <? 2 ^ 32)
  then ret (if little_endian then bswap32 x else x)
  else raise OverflowError.

Definition ntohs (little_endian : bool) (x : Z) : M Z :=
  if (0 <=? x) && (x <? 2 ^ 16)
  then ret (if little_endian then bswap16 x else x)
  else raise OverflowError.

(** [str(ipaddress.ip_address(n))].  An integer below [2^32] is an IPv4
    address, printed as a dotted quad.  [main] only passes what [ntohl]
    returns, which is below [2^32]; the other integers (IPv6 addresses
    up to [2^128], an error beyond) are not told apart here. *)
Definition dotted_quad (n : Z) : string :=
  str_int (Z.land (Z.shiftr n 24) 255) +:+ "." +:+
  str_int (Z.land (Z.shiftr n 16) 255) +:+ "." +:+
  str_int (Z.land (Z.shiftr n 8) 255) +:+ "." +:+
  str_int (Z.land n 255).

Definition ip_address (n : Z) : M string :=
  if (0 <=? n) && (n <? 2 ^ 32) then ret (dotted_quad n) else raise ValueError.

(** ["{},{},{},{},{},{},{},{},{},{}\n".format(...)] *)
Definition format_row (fields : list string) : string :=
  String.concat comma fields +:+ newline.

Definition header : string :=
  "START, END, SRC IP, DST IP, SRC PORT, DST PORT, ETHER TYPE, PROTO, #PACKETS, #BYTES"
  +:+ newline.

(** [x.find(',')] and the slice [x[:i]]. *)
Definition find_comma (x : string) : Z :=
  match index 0 comma x with
  | Some i => Z.of_nat i
  | None => -1
  end.

Definition slice_to (x : string) (i : Z) : string :=
  if i <? 0
  then substring 0 (Z.to_nat (Z.of_nat (String.length x) + i)) x
  else substring 0 (Z.to_nat i) x.

(** ** The report compiler and [main] *)

(** Where Ctrl-C reaches one iteration of the collecting loop: in
    [time.sleep], or in the sweep after [n] table operations. *)
Inductive Interrupt :=
  | InSleep
  | InSweep (n : nat).

(** One aggregation tick as the engine sees it: what the classifier
    wrote to the live table while the engine slept, whether and where
    Ctrl-C came, and the clock the sweep reads. *)
Record Tick (F : Type) := mkTick {
  arrivals : list (FlowKey * list Accm);
  interrupt : option Interrupt;
  tick_now : F
}.
Arguments mkTick {F}.
Arguments arrivals {F}.
Arguments interrupt {F}.
Arguments tick_now {F}.

Definition interrupted {F} (t : Tick F) : bool :=
  match interrupt t with
  | Some _ => true
  | None => false
  end.

(** Where Ctrl-C reaches lines 128-138: in the forced sweep or in the
    transfer loop, after [n] table operations of it. *)
Inductive DrainInterrupt :=
  | InForcedSweep (n : nat)
  | InTransfer (n : nat).

(** Everything outside the engine that decides one run of [main]: the
    ticks of the collecting loop (the loop ends with the list, or with
    the first interrupted tick), the classifier's writes before the
    forced sweep and before the final transfer lists the live table,
    the clock of the forced sweep, Ctrl-C in lines 128-138, the
    classifier's writes after the final transfer listed the live table
    (it stays attached until line 196 unless the loop was interrupted),
    and whether the output file can be opened.

    Ctrl-C in the handler of line 124 or in the report is left out.
    The writes are not tied to the attachment: a schedule with writes
    after the handler detached the classifier describes no real run. *)
Record Schedule (F : Type) := mkSchedule {
  ticks : list (Tick F);
  drain_arrivals : list (FlowKey * list Accm);
  drain_now : F;
  late_arrivals : list (FlowKey * list Accm);
  drain_interrupt : option DrainInterrupt;
  unseen_arrivals : list (FlowKey * list Accm);
  open_ok : bool
}.
Arguments mkSchedule {F}.
Arguments ticks {F}.
Arguments drain_arrivals {F}.
Arguments drain_now {F}.
Arguments late_arrivals {F}.
Arguments drain_interrupt {F}.
Arguments unseen_arrivals {F}.
Arguments open_ok {F}.

(** Modelled from the spec: the kernel classifier [xdp_collect.c] is not
    among the sources; it populates the live table, creating or updating
    the entry of a flow, and never deletes from it. *)
Definition classifier (writes : list (FlowKey * list Accm)) : M unit :=
  λ w, (Ok tt, mkWorld (foldl (λ m kv, <[kv.1:=kv.2]> m) (flows w) writes)
                       (cache w) (trace w) (written w)).

Definition is_KeyboardInterrupt (e : Exn) : bool :=
  match e with
  | KeyboardInterrupt => true
  | _ => false
  end.

Section Main.
Context {F : Type} `{PyFloat F}.
Variable CPU_COUNT : nat.

(** [sys.byteorder == 'little'] *)
Variable little_endian : bool.

(** Lines 175-186: the addresses of a row.  [ipaddress] has no
    attribute [ipv6_address], so the second branch raises before its
    argument is evaluated. *)
Definition decode_addrs (attrs : FlowKey) : M (string * string) :=
  if l2_proto attrs =? 0x0800 then
    let* s := ntohl little_endian (src_ip attrs) in
    let* src := ip_address s in
    let* d := ntohl little_endian (dst_ip attrs) in
    let* dst := ip_address d in
    ret (src, dst)
  else if l2_proto attrs =? 0x8100 then raise AttributeError
  else ret (EmptyString, EmptyString).

(** Lines 154-194: the body of the loop over the cache, up to the
    text added to [flow_set]. *)
Definition row_fields (offset : F) (item : FlowKey * list Accm)
    : M (list string) :=
  let attrs := item.1 in
  let* v := merge_accms CPU_COUNT item.2 in
  let '(n_packets, n_bytes, st, en) := v in
  let st := f_add (f_of_ns st) offset in
  let en := f_add (f_of_ns en) offset in
  let* ips := decode_addrs attrs in
  let* src_p := ntohs little_endian (src_port attrs) in
  let* dst_p := ntohs little_endian (dst_port attrs) in
  ret [f_str st; f_str en; ips.1; ips.2; str_int src_p; str_int dst_p;
       py_hex (l2_proto attrs); str_int (l4_proto attrs);
       str_int n_packets; str_int n_bytes].

Definition compile_row (offset : F) (item : FlowKey * list Accm)
    : M string :=
  let* fields := row_fields offset item in
  ret (format_row fields).

(** Lines 141-194, the body of the [try]. *)
Definition compile_rows (offset : F) (can_open : bool) : M (gset string) :=
  (if can_open then ret tt else raise OSError) ;;
  let* all_flows := cache_items in
  for_in all_flows ∅ (λ flow_set item,
    let* row := compile_row offset item in
    ret ({[row]} ∪ flow_set)).

(** Lines 195-198, the [finally]: [f] is unbound when [open] failed. *)
Definition teardown (can_open : bool) : M unit :=
  emit EvRemoveXdp ;;
  if can_open then ret tt else raise UnboundLocalError.

(** Line 202: [sorted(flow_set, key=lambda x: float(x[:x.find(',')]))].
    The keys are computed first; the sort is stable and compares keys
    with [<] only. *)
Definition sort_key (x : string) : M F :=
  match f_parse (slice_to x (find_comma x)) with
  | Some t => ret t
  | None => raise ValueError
  end.

Fixpoint insert_keyed (kx : F * string) (l : list (F * string))
    : list (F * string) :=
  match l with
  | [] => [kx]
  | ky :: l' =>
      if f_ltb ky.1 kx.1 then ky :: insert_keyed kx l' else kx :: ky :: l'
  end.

Definition sort_keyed (l : list (F * string)) : list (F * string) :=
  foldr insert_keyed [] l.

Definition sorted (l : list string) : M (list string) :=
  let* keyed := for_in l [] (λ acc x,
    let* k := sort_key x in ret (acc ++ [(k, x)])) in
  ret ((sort_keyed keyed).*2).

(** Line 122: [time.sleep(secs)] raises [ValueError] for a negative
    length before it sleeps; while the engine sleeps the classifier
    writes, and Ctrl-C ends the sleep with [KeyboardInterrupt]. *)
Definition sleep (secs : Z) (t : Tick F) : M unit :=
  if secs <? 0 then raise ValueError
  else
    classifier (arrivals t) ;;
    match interrupt t with
    | Some InSleep => raise KeyboardInterrupt
    | _ => ret tt
    end.

(** Line 123: the sweep of one iteration, run to its end or cut short
    by Ctrl-C. *)
Definition sweep_tick (offset : F) (agg_time : Z) (t : Tick F) : M unit :=
  match interrupt t with
  | Some (InSweep n) => sweep_flows_until CPU_COUNT n offset agg_time (tick_now t)
  | _ => _sweep_flows CPU_COUNT offset agg_time (tick_now t)
  end.

(** Lines 120-123: the collecting loop, one iteration per tick. *)
Fixpoint collect (offset : F) (agg_time : Z) (ts : list (Tick F)) : M unit :=
  match ts with
  | [] => ret tt
  | t :: ts' =>
      sleep agg_time t ;;
      sweep_tick offset agg_time t ;;
      collect offset agg_time ts'
  end.

(** Lines 131-138: every binding still in [flows] is copied to
    [cache]; [flows] is not changed. *)
Definition transfer_flows : M unit :=
  let* cur_flows := flows_items in
  for_in cur_flows tt (λ _ item, cache_setitem item.1 item.2).

(** The transfer cut short by Ctrl-C after [n] of its stores. *)
Definition transfer_flows_until (n : nat) : M unit :=
  let* cur_flows := flows_items in
  for_in (take n cur_flows) tt (λ _ item, cache_setitem item.1 item.2) ;;
  raise KeyboardInterrupt.

(** Lines 128-138: the forced sweep and the transfer; no [try]
    encloses them. *)
Definition drain (offset : F) (s : Schedule F) : M unit :=
  classifier (drain_arrivals s) ;;
  match drain_interrupt s with
  | Some (InForcedSweep n) =>
      sweep_flows_until CPU_COUNT n offset 0 (drain_now s)
  | _ => _sweep_flows CPU_COUNT offset 0 (drain_now s)
  end ;;
  classifier (late_arrivals s) ;;
  match drain_interrupt s with
  | Some (InTransfer n) => transfer_flows_until n
  | _ => transfer_flows
  end.

(** Lines 140-210.  The order in which Python iterates over a set is
    not specified; [elements] fixes one. *)
Definition report (offset : F) (s : Schedule F) : M unit :=
  let* flow_set :=
    try_finally (compile_rows offset (open_ok s)) (teardown (open_ok s)) in
  let* s_flow_set := sorted (elements flow_set) in
  f_write header ;;
  for_in s_flow_set tt (λ _ entry, f_write entry).

(** Lines 119-126: the loop under its [except KeyboardInterrupt]. *)
Definition collecting (offset : F) (agg_time : Z) (s : Schedule F) : M unit :=
  try_except (collect offset agg_time (ticks s)) is_KeyboardInterrupt
    (emit EvRemoveXdp).

(** [main] from the attachment of the classifier on (line 105).  The
    classifier goes on writing to the live table after the transfer
    listed it; the report does not read the live table. *)
Definition main (offset : F) (agg_time : Z) (s : Schedule F) : M unit :=
  emit EvAttachXdp ;;
  collecting offset agg_time s ;;
  drain offset s ;;
  classifier (unseen_arrivals s) ;;
  report offset s.

End Main.

(** ** An exact instance of the float arithmetic

    Seconds in fixed point with nanosecond resolution: the integer [x]
    stands for the float [x * 1e-9].  Every operation of the engine is
    exact on it.  It is printed in scientific notation, [<x>e-9], which
    [float()] reads back. *)

Fixpoint split_at_e (s : string) : option (string * string) :=
  match s with
  | EmptyString => None
  | String c s' =>
      if Ascii.eqb c "e" then Some (EmptyString, s')
      else match split_at_e s' with
           | Some (a, b) => Some (String c a, b)
           | None => None
           end
  end.

Definition nano_str (x : Z) : string := str_int x +:+ "e-9".

Definition nano_parse (s : string) : option Z :=
  match split_at_e s with
  | Some (a, b) =>
      if String.eqb b "-9" then int_of_str a else None
  | None => None
  end.

(** ** Auxiliary predicates on strings *)

Definition plain (c : ascii) : Prop := c ≠ ","%char ∧ c ≠ "e"%char.

Fixpoint all_chars (P : ascii → Prop) (s : string) : Prop :=
  match s with
  | EmptyString => True
  | String c s' => P c ∧ all_chars P s'
  end.



(** ** Pure readings of the loops and the claims' own wording *)

(** What [merge_accms] returns on an array with a slot per CPU. *)
Definition merged (CPU_COUNT : nat) (accms : list Accm) : View :=
  foldl merge_step (0, 0, -1, -1) (take CPU_COUNT accms).

(** The merge as the specification words it: the earliest start and the
    latest end are taken over the shards that recorded a packet. *)
Definition shard_aware_merge (CPU_COUNT : nat) (accms : list Accm) : Prop :=
  recorded accms ≠ [] →
  ∀ w, ∃ v, merge_accms CPU_COUNT accms w = (Ok v, w) ∧
    minimum (start <$> recorded accms) = Some (view_start v) ∧
    maximum (end_ <$> recorded accms) = Some (view_end v).

(** A computation that only reads: it returns the same outcome in every
    world and leaves the world as it found it. *)
Definition stateless {A} (c : M A) : Prop := ∃ r, ∀ w, c w = (r, w).

(** Every array of the table has one slot per CPU. *)
Definition sized (CPU_COUNT : nat) (m : Table) : Prop :=
  map_Forall (λ _ accms, length accms = CPU_COUNT) m.

Definition sized_writes (CPU_COUNT : nat)
    (writes : list (FlowKey * list Accm)) : Prop :=
  Forall (λ kv, length kv.2 = CPU_COUNT) writes.

(** The latest end stamp of a flow over its shards (0 when it has none). *)
Definition latest_end (accms : list Accm) : Z :=
  foldl Z.max 0 (end_ <$> accms).

(** The flow's idle time at [now] exceeds the threshold. *)
Definition is_old {F} `{PyFloat F} (offset : F) (agg_time : Z) (now : F)
    (accms : list Accm) : bool :=
  f_ltb (f_of_int agg_time)
        (f_sub now (f_add (f_of_ns (latest_end accms)) offset)).

(** The table events of one transfer, in the order they happen. *)
Definition move_events (kv : FlowKey * list Accm) : list Event :=
  [EvCacheSet kv.1 kv.2; EvFlowsDel kv.1].

(** The first loop of the sweep as a fold, and the bindings it selects. *)
Definition scan_step {F} `{PyFloat F} (offset : F) (agg_time : Z) (now : F)
    (old_flows : list FlowKey) (item : FlowKey * list Accm) : list FlowKey :=
  if is_old offset agg_time now item.2 then old_flows ++ [item.1]
  else old_flows.

Definition old_items {F} `{PyFloat F} (offset : F) (agg_time : Z) (now : F)
    (items : list (FlowKey * list Accm)) : list (FlowKey * list Accm) :=
  filter (λ kv, is_old offset agg_time now kv.2 = true) items.

(** The old flows of a world, in the order [items()] lists them. *)
Definition olds {F} `{PyFloat F} (offset : F) (agg_time : Z) (now : F)
    (w : World) : list (FlowKey * list Accm) :=
  old_items offset agg_time now (map_to_list (flows w)).

(** A table after a list of deletions, and after a list of writes. *)
Definition del_all (m : Table) (kvs : list (FlowKey * list Accm)) : Table :=
  foldl (λ m kv, delete kv.1 m) m kvs.

Definition put_all (m : Table) (kvs : list (FlowKey * list Accm)) : Table :=
  foldl (λ m kv, <[kv.1:=kv.2]> m) m kvs.

(** The zero-threshold drain as the specification words it: when no
    flow has a negative idle time, the forced sweep and the transfer
    put every live flow in the cache and leave the live table empty. *)
Definition drain_empties {F} `{PyFloat F} (CPU_COUNT : nat) (offset now : F)
    (w : World) : Prop :=
  (∀ k accms, flows w !! k = Some accms →
     f_ltb (idle_time offset now (latest_end accms)) (f_of_int 0) = false) →
  ∃ w', (_sweep_flows CPU_COUNT offset 0 now ;; transfer_flows) w = (Ok tt, w') ∧
    (∀ k accms, flows w !! k = Some accms → cache w' !! k = Some accms) ∧
    flows w' = ∅.

(** A step that changes nothing but possibly [written]. *)
Definition only_writes (w w' : World) : Prop :=
  flows w' = flows w ∧ cache w' = cache w ∧ trace w' = trace w.

(** [c] relates the world it starts in to the world it ends in by [P],
    whatever its outcome. *)
Definition keeps {A} (P : World → World → Prop) (c : M A) : Prop :=
  ∀ w r w', c w = (r, w') → P w w'.

(** The number of detachments among some events, and in a world so
    far. *)
Definition count_detach (evs : list Event) : nat :=
  length (filter (λ e, e = EvRemoveXdp) evs).

Definition detaches (w : World) : nat := count_detach (trace w).

(** One table operation of the engine: it stores the array of a live
    flow in the cache, or deletes from the live table a flow whose
    array the cache holds. *)
Definition stored (k : FlowKey) (v : list Accm) (w : World) : World :=
  mkWorld (flows w) (<[k:=v]> (cache w)) (trace w ++ [EvCacheSet k v])
          (written w).

Definition deleted (k : FlowKey) (w : World) : World :=
  mkWorld (delete k (flows w)) (cache w) (trace w ++ [EvFlowsDel k])
          (written w).

Inductive table_step : World → World → Prop :=
  | step_store w k v :
      flows w !! k = Some v → table_step w (stored k v w)
  | step_delete w k v :
      flows w !! k = Some v → cache w !! k = Some v →
      table_step w (deleted k w).

(** Any number of them, one after the other. *)
Definition table_steps : World → World → Prop := rtc table_step.

(** The ticks that began: up to the first interrupted one. *)
Fixpoint ticks_run {F} (ts : list (Tick F)) : list (Tick F) :=
  match ts with
  | [] => []
  | t :: ts' => if interrupted t then [t] else t :: ticks_run ts'
  end.

(** Ctrl-C came during the collecting loop; during lines 128-138. *)
Definition was_interrupted {F} (s : Schedule F) : bool :=
  existsb interrupted (ticks s).

Definition drain_interrupted {F} (s : Schedule F) : bool :=
  match drain_interrupt s with
  | Some _ => true
  | None => false
  end.



(** The classifier only ever writes arrays with a slot per CPU. *)
Definition sized_schedule {F} (CPU_COUNT : nat) (s : Schedule F) : Prop :=
  Forall (λ t, sized_writes CPU_COUNT (arrivals t)) (ticks s) ∧
  sized_writes CPU_COUNT (drain_arrivals s) ∧
  sized_writes CPU_COUNT (late_arrivals s).

(** How many bindings of [items()] have the key [k]. *)
Definition occurrences (k : FlowKey) (items : list (FlowKey * list Accm))
    : nat :=
  length (filter (λ kv, kv.1 = k) items).

(** The run of [main] from the attachment to the end of the drain. *)
Definition collect_and_drain {F} `{PyFloat F} (CPU_COUNT : nat) (offset : F)
    (agg_time : Z) (s : Schedule F) : M unit :=
  emit EvAttachXdp ;;
  collecting CPU_COUNT offset agg_time s ;;
  drain CPU_COUNT offset s.


(** The key is in one of the two tables. *)
Definition held (w : World) (k : FlowKey) : Prop :=
  is_Some (flows w !! k) ∨ is_Some (cache w !! k).

(** A step that writes nothing to the file and detaches nothing. *)
Definition quiet (w w' : World) : Prop :=
  written w' = written w ∧
  ∃ evs, trace w' = trace w ++ evs ∧ count_detach evs = 0%nat.

(** What every table operation keeps, for [CPU_COUNT] CPUs: arrays with
    a slot per CPU in the live table, every key in one of the tables,
    and no detachment and no line written. *)
Definition carries (CPU_COUNT : nat) (w w' : World) : Prop :=
  (sized CPU_COUNT (flows w) → sized CPU_COUNT (flows w')) ∧
  (∀ k, held w k → held w' k) ∧
  quiet w w'.

(** ** Pure readings of the report *)

Definition host32 (little_endian : bool) (x : Z) : Z :=
  if little_endian then bswap32 x else x.

Definition host16 (little_endian : bool) (x : Z) : Z :=
  if little_endian then bswap16 x else x.

(** The keys the report renders without raising: the ethertype is not
    0x8100, the ports fit 16 bits and, for IPv4, the addresses 32. *)
Definition renderable (attrs : FlowKey) : Prop :=
  l2_proto attrs ≠ 0x8100 ∧
  (l2_proto attrs = 0x0800 →
   (0 ≤ src_ip attrs < 2 ^ 32) ∧ (0 ≤ dst_ip attrs < 2 ^ 32)) ∧
  (0 ≤ src_port attrs < 2 ^ 16) ∧
  (0 ≤ dst_port attrs < 2 ^ 16).

Definition addr_fields (little_endian : bool) (attrs : FlowKey)
    : string * string :=
  if l2_proto attrs =? 0x0800
  then (dotted_quad (host32 little_endian (src_ip attrs)),
        dotted_quad (host32 little_endian (dst_ip attrs)))
  else (EmptyString, EmptyString).

(** The ten fields of the row of a renderable binding. *)
Definition fields_of {F} `{PyFloat F} (CPU_COUNT : nat) (little_endian : bool)
    (offset : F) (item : FlowKey * list Accm) : list string :=
  let v := merged CPU_COUNT item.2 in
  [f_str (f_add (f_of_ns (view_start v)) offset);
   f_str (f_add (f_of_ns (view_end v)) offset);
   (addr_fields little_endian item.1).1;
   (addr_fields little_endian item.1).2;
   str_int (host16 little_endian (src_port item.1));
   str_int (host16 little_endian (dst_port item.1));
   py_hex (l2_proto item.1);
   str_int (l4_proto item.1);
   str_int (view_packets v);
   str_int (view_bytes v)].

Definition row_of {F} `{PyFloat F} (CPU_COUNT : nat) (little_endian : bool)
    (offset : F) (item : FlowKey * list Accm) : string :=
  format_row (fields_of CPU_COUNT little_endian offset item).

(** The sort key of a row: the float read from its text up to the first
    comma. *)
Definition row_key {F} `{PyFloat F} (x : string) : option F :=
  f_parse (slice_to x (find_comma x)).

Definition key_of {F} `{PyFloat F} (x : string) : F :=
  default (f_of_int 0) (row_key x).

(** [r1] may stand before [r2] in ascending order of the sort key. *)
Definition by_start_time {F} `{PyFloat F} (r1 r2 : string) : Prop :=
  ∃ t1 t2, row_key r1 = Some t1 ∧ row_key r2 = Some t2 ∧ f_ltb t2 t1 = false.

Definition key_le {F} `{PyFloat F} (a b : F * string) : Prop :=
  f_ltb b.1 a.1 = false.


(** The binding is rendered, in every world, as [row_of] says. *)
Definition renders {F} `{PyFloat F} (CPU_COUNT : nat) (little_endian : bool)
    (offset : F) (item : FlowKey * list Accm) : Prop :=
  ∀ w, compile_row CPU_COUNT little_endian offset item w =
       (Ok (row_of CPU_COUNT little_endian offset item), w).

(** ** Concrete inputs *)

Definition empty_world : World := mkWorld ∅ ∅ [] [].

(** Two CPUs; CPU 0 never saw the flow. *)
Definition two_shards : list Accm := [mkAccm 0 0 0 0; mkAccm 3 180 5 9].

(** A TCP flow 192.168.0.1:80 -> 10.0.0.1:443 as the classifier stores
    it (network byte order). *)
Definition key_a : FlowKey :=
  mkFlowKey 0x0800 6 0x0100a8c0 0x0100000a 0x5000 0xbb01.

(** One CPU; the last packet of the flow was stamped 100 s after boot. *)
Definition one_shard : list Accm :=
  [mkAccm 1 60 99000000000 100000000000].

Definition live_a : World := mkWorld {[key_a := one_shard]} ∅ [] [].

(** An IPv6 flow: its ethertype is none of the two the report decodes. *)
Definition key_b : FlowKey := mkFlowKey 0x86dd 17 1 2 0x3500 0x3500.

(** The same flow from another source address. *)
Definition key_c : FlowKey := mkFlowKey 0x86dd 17 7 2 0x3500 0x3500.

(** A flow tagged with ethertype 0x8100. *)
Definition key_d : FlowKey := mkFlowKey 0x8100 6 1 2 0x5000 0xbb01.

(** One tick in which the classifier records [key_b]; the window then
    closes, or the sleep is interrupted. *)
Definition quiet_run : Schedule Z :=
  mkSchedule [mkTick [(key_b, one_shard)] None 200000000000]
             [] 300000000000 [] None [] true.

Definition interrupted_run : Schedule Z :=
  mkSchedule [mkTick [(key_b, one_shard)] (Some InSleep) 200000000000]
             [] 300000000000 [] None [] true.

(** A run during whose drain the classifier records [key_d]. *)
Definition failing_run : Schedule Z :=
  mkSchedule [mkTick [] None 200000000000]
             [(key_d, one_shard)] 300000000000 [] None [] true.

(** [key_b] was last seen 190 s after boot. *)
Definition fresh_shard : list Accm :=
  [mkAccm 2 120 150000000000 190000000000].

(** A live table with an old and a fresh flow for a sweep at 200 s with
    a threshold of 60 s. *)
Definition live_ab : World :=
  mkWorld {[key_a := one_shard; key_b := fresh_shard]} ∅ [] [].

(** A tick whose sweep, 200 s after boot, Ctrl-C reaches when it has
    stored [key_a] in the cache and not yet deleted it from the live
    table. *)
Definition sweep_interrupted_run : Schedule Z :=
  mkSchedule [mkTick [(key_b, fresh_shard)] (Some (InSweep 1)) 200000000000]
             [] 300000000000 [] None [] true.

(** The window closes after one tick and Ctrl-C reaches the transfer
    loop of line 135 before its first store. *)
Definition drain_interrupted_run : Schedule Z :=
  mkSchedule [mkTick [(key_b, fresh_shard)] None 200000000000]
             [] 201000000000 [] (Some (InTransfer 0)) [] true.

(** The window closes after one tick; the classifier records [key_b]
    after the final transfer listed the live table and before line 196
    detaches it. *)
Definition unseen_run : Schedule Z :=
  mkSchedule [mkTick [] None 200000000000]
             [] 300000000000 [] None [(key_b, one_shard)] true.

(** The forced sweep reads the clock at the very instant of the last
    packet of [key_a]. *)
Definition zero_idle_run : Schedule Z :=
  mkSchedule [] [] 100000000000 [] None [] true.

(** One CPU; the cache holds two distinct flows that differ in the
    source address only and carry an ethertype the report does not
    decode. *)
Definition cached_bc : World :=
  mkWorld ∅ {[key_b := one_shard; key_c := one_shard]} [] [].

(** ** Further readings used by the additional properties *)

(** The world a sweep leaves on a well-sized live table. *)
Definition swept {F} `{PyFloat F} (offset : F) (agg_time : Z) (now : F)
    (w : World) : World :=
  mkWorld (del_all (flows w) (olds offset agg_time now w))
          (put_all (cache w) (olds offset agg_time now w))
          (trace w ++ flat_map move_events (olds offset agg_time now w))
          (written w).

(** No key is in the live table and in the cache at once. *)
Definition apart (w : World) : Prop := flows w ##ₘ cache w.

(** The cache keeps every key it has. *)
Definition cache_grows (w w' : World) : Prop :=
  ∀ k, is_Some (cache w !! k) → is_Some (cache w' !! k).

(** A binding the report can render on [CPU_COUNT] CPUs. *)
Definition fit (CPU_COUNT : nat) (kv : FlowKey * list Accm) : Prop :=
  renderable kv.1 ∧ length kv.2 = CPU_COUNT.

Definition fit_table (CPU_COUNT : nat) (m : Table) : Prop :=
  map_Forall (λ k v, fit CPU_COUNT (k, v)) m.

(** Both tables hold only such bindings. *)
Definition fit_world (CPU_COUNT : nat) (w : World) : Prop :=
  fit_table CPU_COUNT (flows w) ∧ fit_table CPU_COUNT (cache w).


(** The world the final transfer leaves. *)
Definition transferred (w : World) : World :=
  mkWorld (flows w) (put_all (cache w) (map_to_list (flows w)))
          (trace w ++ ((λ kv, EvCacheSet kv.1 kv.2) <$> map_to_list (flows w)))
          (written w).

(** The world after the classifier's writes. *)
Definition classified (writes : list (FlowKey * list Accm)) (w : World)
    : World :=
  mkWorld (put_all (flows w) writes) (cache w) (trace w) (written w).

(** The world after one more event. *)
Definition emitted (e : Event) (w : World) : World :=
  mkWorld (flows w) (cache w) (trace w ++ [e]) (written w).

(** The step writes nothing to the file and keeps both tables
    renderable when they were. *)
Definition keeps_fit (CPU_COUNT : nat) (w w' : World) : Prop :=
  written w' = written w ∧ (fit_world CPU_COUNT w → fit_world CPU_COUNT w').

(** Table operations never lose a flow: the live table only shrinks, a
    flow that left it is in the cache with the array it had, and a
    cache entry whose key is not live is not touched. *)
Definition loses_nothing (w w' : World) : Prop :=
  flows w' ⊆ flows w ∧
  (∀ k v, flows w !! k = Some v → flows w' !! k = None →
          cache w' !! k = Some v) ∧
  (∀ k, flows w !! k = None → cache w' !! k = cache w !! k).

(** ** Argument handling and the whole of [main] *)





Section WholeMain.
Context {F : Type} `{PyFloat F}.
Variable CPU_COUNT : nat.
Variable little_endian : bool.


End WholeMain.

(** ** Bytes on the wire *)

(** The integer a host reads from four bytes stored in the order
    [b0 b1 b2 b3], and from two bytes stored in the order [b0 b1]. *)
Definition wire32 (little_endian : bool) (b0 b1 b2 b3 : Z) : Z :=
  if little_endian
  then b0 + b1 * 2 ^ 8 + b2 * 2 ^ 16 + b3 * 2 ^ 24
  else b0 * 2 ^ 24 + b1 * 2 ^ 16 + b2 * 2 ^ 8 + b3.

Definition wire16 (little_endian : bool) (b0 b1 : Z) : Z :=
  if little_endian then b0 + b1 * 2 ^ 8 else b0 * 2 ^ 8 + b1.

Definition is_byte (b : Z) : Prop := 0 ≤ b < 256.

Definition quad (b0 b1 b2 b3 : Z) : string :=
  str_int b0 +:+ "." +:+ str_int b1 +:+ "." +:+ str_int b2 +:+ "." +:+
  str_int b3.

(** ** Reading a row back *)

(** [s.split(sep)] for a one-character separator. *)
Fixpoint split_at (sep : ascii) (s : string) : list string :=
  match s with
  | EmptyString => [EmptyString]
  | String c s' =>
      if Ascii.eqb c sep then EmptyString :: split_at sep s'
      else match split_at sep s' with
           | [] => [String c EmptyString]
           | f :: fs => String c f :: fs
           end
  end.

Definition comma_free (s : string) : Prop := all_chars (λ c, c ≠ ","%char) s.

(** ** More concrete inputs *)

(** One CPU; the cache holds a flow tagged 0x8100. *)
Definition cached_d : World := mkWorld ∅ {[key_d := one_shard]} [] [].

(** A run whose output file cannot be opened. *)
Definition unwritable_run : Schedule Z :=
  mkSchedule [] [] 300000000000 [] None [] false.



(** Three flows first seen 12.5 s, 3.1 s and 7.0 s after boot. *)
Definition late_shard : list Accm := [mkAccm 1 60 12500000000 13000000000].
Definition early_shard : list Accm := [mkAccm 2 120 3100000000 4000000000].
Definition mid_shard : list Accm := [mkAccm 3 180 7000000000 8000000000].

Definition cached_three : World :=
  mkWorld ∅ {[key_a := late_shard; key_b := early_shard; key_c := mid_shard]}
          [] [].
(** * Properties *)

(** ** Strings *)

Lemma all_chars_app P a b :
  all_chars P a → all_chars P b → all_chars P (a +:+ b).
Proof. induction a as [|c a IH]; simpl; [done|]. intros [? ?] ?. auto. Qed.

Lemma all_chars_impl (P Q : ascii → Prop) s :
  (∀ c, P c → Q c) → all_chars P s → all_chars Q s.
Proof. intros HPQ. induction s as [|c s IH]; simpl; [done|]. intros [? ?]. auto. Qed.

Lemma plain_uint d : all_chars plain (DecimalString.NilEmpty.string_of_uint d).
Proof. induction d; simpl; repeat split; auto; discriminate. Qed.

Lemma plain_str_int x : all_chars plain (str_int x).
Proof.
  unfold str_int. destruct (Z.to_int x) as [d|d]; simpl.
  - destruct d; try apply plain_uint. simpl. repeat split; discriminate.
  - split; [split; discriminate|].
    destruct d; try apply plain_uint. simpl. repeat split; discriminate.
Qed.

Lemma index_comma_cons c s :
  index 0 comma (String c s) =
  if Ascii.eqb c "," then Some 0%nat else option_map S (index 0 comma s).
Proof.
  change (index 0 comma (String c s)) with
    (if String.prefix comma (String c s) then Some 0%nat
     else match index 0 comma s with Some n => Some (S n) | None => None end).
  change (String.prefix comma (String c s)) with
    (if ascii_dec "," c then String.prefix EmptyString s else false).
  destruct (ascii_dec "," c) as [<-|Hne].
  - by destruct s.
  - destruct (Ascii.eqb_spec c ","); [congruence|]. by destruct (index 0 comma s).
Qed.

Lemma index_comma_none s :
  all_chars (λ c, c ≠ ","%char) s → index 0 comma s = None.
Proof.
  induction s as [|c s IH]; [done|]. intros [Hc Hs].
  rewrite index_comma_cons. destruct (Ascii.eqb_spec c ","); [done|].
  by rewrite IH.
Qed.

Lemma index_comma_app a b :
  index 0 comma a = None →
  index 0 comma (a +:+ comma +:+ b) = Some (String.length a).
Proof.
  induction a as [|c a IH].
  - intros _. change (EmptyString +:+ comma +:+ b) with (String "," b).
    by rewrite index_comma_cons.
  - change (String c a +:+ comma +:+ b) with (String c (a +:+ comma +:+ b)).
    rewrite !index_comma_cons. destruct (Ascii.eqb c ","); [done|].
    destruct (index 0 comma a) eqn:E; [done|]. intros _. by rewrite IH.
Qed.

Lemma substring_app_l a b : substring 0 (String.length a) (a +:+ b) = a.
Proof.
  induction a as [|c a IH]; simpl; [by destruct b|]. by rewrite IH.
Qed.

Lemma split_at_e_app a b :
  all_chars (λ c, c ≠ "e"%char) a →
  split_at_e (a +:+ String "e" b) = Some (a, b).
Proof.
  induction a as [|c a IH]; simpl; [done|]. intros [Hc Ha].
  destruct (Ascii.eqb_spec c "e"); [done|]. by rewrite IH.
Qed.

Lemma int_of_str_int x :
  DecimalString.NilZero.int_of_string (str_int x) = Some (Z.to_int x).
Proof.
  unfold str_int. apply DecimalString.NilZero.isi.
  - destruct x as [|p|p]; simpl; try discriminate.
    intros [= E]. by apply (DecimalPos.Unsigned.to_uint_nonnil p).
  - destruct x as [|p|p]; simpl; try discriminate.
    intros [= E]. by apply (DecimalPos.Unsigned.to_uint_nonnil p).
Qed.

Lemma int_of_str_int_Z n : int_of_str (str_int n) = Some n.
Proof.
  unfold int_of_str. rewrite int_of_str_int. simpl. by rewrite DecimalZ.of_to.
Qed.

Lemma nano_parse_str x : nano_parse (nano_str x) = Some x.
Proof.
  unfold nano_parse, nano_str.
  rewrite (split_at_e_app (str_int x) "-9").
  - simpl. apply int_of_str_int_Z.
  - eapply all_chars_impl; [|apply plain_str_int]. by intros c [_ ?].
Qed.

Lemma nano_str_no_comma x : index 0 comma (nano_str x) = None.
Proof.
  apply index_comma_none. unfold nano_str. apply all_chars_app.
  - eapply all_chars_impl; [|apply plain_str_int]. by intros c [? _].
  - simpl. repeat split; discriminate.
Qed.

Lemma nano_ltb_asym (x y : Z) : (x <? y) = true → (y <? x) = false.
Proof. lia. Qed.

Lemma nano_leb_trans (x y z : Z) :
  (y <? x) = false → (z <? y) = false → (z <? x) = false.
Proof. lia. Qed.

#[global] Instance NanoFloat : PyFloat Z := {|
  f_of_ns := λ n, n;
  f_of_int := λ s, s * 10 ^ 9;
  f_add := Z.add;
  f_sub := Z.sub;
  f_ltb := Z.ltb;
  f_str := nano_str;
  f_parse := nano_parse;
  f_ltb_asym := nano_ltb_asym;
  f_leb_trans := nano_leb_trans;
  f_parse_str := nano_parse_str;
  f_str_no_comma := nano_str_no_comma
|}.

(** ** The monad and its loops *)

Lemma bind_ok {A B} (c : M A) (k : A → M B) w a w' :
  c w = (Ok a, w') → bind c k w = k a w'.
Proof. unfold bind. by intros ->. Qed.

Lemma bind_raise {A B} (c : M A) (k : A → M B) w e w' :
  c w = (Raise e, w') → bind c k w = (Raise e, w').
Proof. unfold bind. by intros ->. Qed.

(** A loop whose body neither raises nor touches the world is a fold. *)
Lemma for_in_pure {A B} (P : A → Prop) (step : B → A → B) body (l : list A) :
  (∀ acc x w, P x → body acc x w = (Ok (step acc x), w)) →
  Forall P l →
  ∀ acc w, for_in l acc body w = (Ok (foldl step acc l), w).
Proof.
  intros Hbody Hl. induction Hl as [|x l Hx Hl IH]; intros acc w; simpl.
  - done.
  - erewrite bind_ok; [|by apply Hbody]. apply IH.
Qed.

Lemma getidx_Some {A} (l : list A) j a w :
  l !! j = Some a → getidx l j w = (Ok a, w).
Proof. unfold getidx. by intros ->. Qed.

Lemma getidx_None {A} (l : list A) j w :
  l !! j = None → getidx l j w = (Raise IndexError, w).
Proof. unfold getidx. by intros ->. Qed.

(** The loop [for j in range(0, n)] reading [accms[j]] folds over the
    first [n] slots when the array has them. *)
Lemma for_in_seq_getidx {B} (step : B → Accm → B) (accms : list Accm) n :
  ∀ i acc w, (i + n ≤ length accms)%nat →
  for_in (seq i n) acc
    (λ acc j, let* a := getidx accms j in ret (step acc a)) w =
  (Ok (foldl step acc (take n (drop i accms))), w).
Proof.
  induction n as [|n IH]; intros i acc w Hlen; simpl.
  - done.
  - destruct (lookup_lt_is_Some_2 accms i) as [a Ha]; [lia|].
    rewrite (drop_S _ _ _ Ha). simpl.
    erewrite bind_ok; [|erewrite bind_ok; [|by apply getidx_Some]; done].
    rewrite IH; [done|lia].
Qed.

Lemma for_in_range_getidx {B} (step : B → Accm → B) (accms : list Accm) n acc w :
  (n ≤ length accms)%nat →
  for_in (range n) acc
    (λ acc j, let* a := getidx accms j in ret (step acc a)) w =
  (Ok (foldl step acc (take n accms)), w).
Proof. intros Hn. unfold range. rewrite for_in_seq_getidx; [done|lia]. Qed.

(** ** The accumulator merge *)

Section MergeFacts.
Variable CPU_COUNT : nat.

Lemma merge_accms_ok accms w :
  (CPU_COUNT ≤ length accms)%nat →
  merge_accms CPU_COUNT accms w = (Ok (merged CPU_COUNT accms), w).
Proof. apply for_in_range_getidx. Qed.

Lemma recent_stamp_of_ok accms w :
  (CPU_COUNT ≤ length accms)%nat →
  recent_stamp_of CPU_COUNT accms w =
  (Ok (foldl recent_step 0 (take CPU_COUNT accms)), w).
Proof. apply for_in_range_getidx. Qed.

End MergeFacts.

(** *** Minimum and maximum of a list *)

Lemma foldl_max_spec (l : list Z) x :
  (foldl Z.max x l = x ∨ foldl Z.max x l ∈ l) ∧
  x ≤ foldl Z.max x l ∧ Forall (λ y, y ≤ foldl Z.max x l) l.
Proof.
  revert x. induction l as [|y l IH]; intros x; simpl.
  - split; [by left|]. split; [lia|constructor].
  - destruct (IH (Z.max x y)) as ([E|E] & Hle & Hall).
    + split; [|split; [lia|constructor; [lia|done]]].
      rewrite E. destruct (Z.max_spec x y) as [[_ ->]|[_ ->]]; [right; left|by left].
    + split; [by right; right|]. split; [lia|constructor; [lia|done]].
Qed.

Lemma foldl_min_spec (l : list Z) x :
  (foldl Z.min x l = x ∨ foldl Z.min x l ∈ l) ∧
  foldl Z.min x l ≤ x ∧ Forall (λ y, foldl Z.min x l ≤ y) l.
Proof.
  revert x. induction l as [|y l IH]; intros x; simpl.
  - split; [by left|]. split; [lia|constructor].
  - destruct (IH (Z.min x y)) as ([E|E] & Hle & Hall).
    + split; [|split; [lia|constructor; [lia|done]]].
      rewrite E. destruct (Z.min_spec x y) as [[_ ->]|[_ ->]]; [by left|right; left].
    + split; [by right; right|]. split; [lia|constructor; [lia|done]].
Qed.

Lemma maximum_spec (l : list Z) m :
  maximum l = Some m ↔ m ∈ l ∧ Forall (λ y, y ≤ m) l.
Proof.
  destruct l as [|x l]; simpl.
  - split; [done|]. intros [Hm _]. by apply elem_of_nil in Hm.
  - destruct (foldl_max_spec l x) as ([E|E] & Hle & Hall). 
    + split.
      * intros [= <-]. split; [rewrite E; left|by constructor].
      * intros [Hm Hub]. f_equal. apply Forall_cons in Hub as [Hx Hub].
        apply elem_of_cons in Hm as [->|Hm]; [done|].
        rewrite Forall_forall in Hall. specialize (Hall _ Hm). lia.
    + split.
      * intros [= <-]. split; [by right|by constructor].
      * intros [Hm Hub]. f_equal. apply Forall_cons in Hub as [Hx Hub].
        rewrite Forall_forall in Hall. rewrite Forall_forall in Hub.
        specialize (Hub _ E).
        apply elem_of_cons in Hm as [->|Hm]; [lia|].
        specialize (Hall _ Hm). lia.
Qed.

Lemma minimum_spec (l : list Z) m :
  minimum l = Some m ↔ m ∈ l ∧ Forall (λ y, m ≤ y) l.
Proof.
  destruct l as [|x l]; simpl.
  - split; [done|]. intros [Hm _]. by apply elem_of_nil in Hm.
  - destruct (foldl_min_spec l x) as ([E|E] & Hle & Hall). 
    + split.
      * intros [= <-]. split; [rewrite E; left|by constructor].
      * intros [Hm Hub]. f_equal. apply Forall_cons in Hub as [Hx Hub].
        apply elem_of_cons in Hm as [->|Hm]; [done|].
        rewrite Forall_forall in Hall. specialize (Hall _ Hm). lia.
    + split.
      * intros [= <-]. split; [by right|by constructor].
      * intros [Hm Hub]. f_equal. apply Forall_cons in Hub as [Hx Hub].
        rewrite Forall_forall in Hall. rewrite Forall_forall in Hub.
        specialize (Hub _ E).
        apply elem_of_cons in Hm as [->|Hm]; [lia|].
        specialize (Hall _ Hm). lia.
Qed.

(** *** What the two merge loops compute *)

Lemma merge_step_counts (l : list Accm) (v : View) :
  view_packets (foldl merge_step v l) = view_packets v + Zsum (packets <$> l) ∧
  view_bytes (foldl merge_step v l) = view_bytes v + Zsum (bytes <$> l).
Proof.
  revert v. induction l as [|a l IH]; intros v; simpl.
  - lia.
  - destruct (IH (merge_step v a)) as [-> ->].
    destruct v as [[[p b] s] e]. unfold merge_step, Zsum.
    destruct (s =? -1); unfold view_packets, view_bytes; simpl;
      split; symmetry; apply Z.add_assoc.
Qed.

Lemma merge_step_stamps (l : list Accm) p b s e :
  0 ≤ s → Forall (λ a, 0 ≤ start a) l →
  view_start (foldl merge_step (p, b, s, e) l) = foldl Z.min s (start <$> l) ∧
  view_end (foldl merge_step (p, b, s, e) l) = foldl Z.max e (end_ <$> l).
Proof.
  revert p b s e. induction l as [|a l IH]; intros p b s e Hs Hl; simpl.
  - done.
  - apply Forall_cons in Hl as [Ha Hl].
    destruct (Z.eqb_spec s (-1)) as [->|_]; [lia|].
    apply IH; [lia|done].
Qed.

Lemma recent_step_max (l : list Accm) r :
  foldl recent_step r l = foldl Z.max r (end_ <$> l).
Proof.
  revert r. induction l as [|a l IH]; intros r; simpl; [done|].
  rewrite IH. f_equal. unfold recent_step.
  destruct (Z.gtb_spec (end_ a) r); lia.
Qed.

Lemma merged_stamps CPU_COUNT a (accms : list Accm) :
  length (a :: accms) = CPU_COUNT →
  Forall (λ a, 0 ≤ start a) (a :: accms) →
  view_start (merged CPU_COUNT (a :: accms)) = foldl Z.min (start a) (start <$> accms) ∧
  view_end (merged CPU_COUNT (a :: accms)) = foldl Z.max (end_ a) (end_ <$> accms).
Proof.
  intros Hlen Hst. unfold merged. rewrite firstn_all2 by lia.
  apply Forall_cons in Hst as [Ha Hst]. simpl.
  by apply merge_step_stamps.
Qed.

Lemma maximum_recorded (accms : list Accm) m :
  Forall (λ a, 0 ≤ end_ a) accms →
  Forall (λ a, ¬ 0 < packets a → end_ a = 0) accms →
  recorded accms ≠ [] →
  maximum (end_ <$> accms) = Some m →
  maximum (end_ <$> recorded accms) = Some m.
Proof.
  intros Hpos Hzero Hne. rewrite !maximum_spec. intros [Hm Hub].
  rewrite Forall_forall in Hpos. rewrite Forall_forall in Hzero.
  rewrite Forall_forall in Hub.
  assert (Hsub : ∀ a, a ∈ recorded accms → a ∈ accms).
  { intros a. unfold recorded. rewrite list_elem_of_filter. tauto. }
  split.
  - apply list_elem_of_fmap in Hm as (a & -> & Ha).
    destruct (decide (0 < packets a)) as [Hp|Hp].
    + apply list_elem_of_fmap. exists a. split; [done|].
      unfold recorded. by apply list_elem_of_filter.
    + destruct (recorded accms) as [|r rs] eqn:E; [done|].
      assert (Hr : r ∈ accms) by (apply Hsub; left).
      assert (end_ r ≤ end_ a) by (apply Hub, list_elem_of_fmap; eauto).
      specialize (Hzero _ Ha Hp). specialize (Hpos _ Hr).
      replace (end_ a) with (end_ r) by lia. rewrite fmap_cons. left.
  - apply Forall_forall. intros y Hy.
    apply list_elem_of_fmap in Hy as (a & -> & Ha).
    apply Hub, list_elem_of_fmap. eauto.
Qed.

(** C2 (as amended): the report's merge takes the earliest start and
    the latest end over all [CPU_COUNT] shards, whether or not a shard
    recorded a packet, and the sweep's [recent_stamp] is that same
    latest end; when the shards without packets carry a zero end stamp,
    the latest end is the one of the shards that recorded a packet. *)
Theorem merge_over_all_shards (CPU_COUNT : nat) (accms : list Accm) (w : World) :
  length accms = CPU_COUNT →
  accms ≠ [] →
  Forall (λ a, 0 ≤ start a) accms →
  Forall (λ a, 0 ≤ end_ a) accms →
  ∃ v, merge_accms CPU_COUNT accms w = (Ok v, w) ∧
    minimum (start <$> accms) = Some (view_start v) ∧
    maximum (end_ <$> accms) = Some (view_end v) ∧
    recent_stamp_of CPU_COUNT accms w = (Ok (view_end v), w) ∧
    (recorded accms ≠ [] →
     Forall (λ a, ¬ 0 < packets a → end_ a = 0) accms →
     maximum (end_ <$> recorded accms) = Some (view_end v)).
Proof.
  intros Hlen Hne Hst Hen. exists (merged CPU_COUNT accms).
  destruct accms as [|a accms]; [done|].
  destruct (merged_stamps CPU_COUNT a accms Hlen Hst) as [Es Ee].
  assert (Hmax : maximum (end_ <$> a :: accms) =
                 Some (view_end (merged CPU_COUNT (a :: accms)))).
  { rewrite Ee. done. }
  split; [apply merge_accms_ok; lia|].
  split; [by rewrite Es|]. split; [done|]. split.
  - rewrite recent_stamp_of_ok by lia. rewrite firstn_all2 by lia.
    rewrite recent_step_max, Ee. simpl. do 3 f_equal.
    apply Forall_cons in Hen as [Ha _]. lia.
  - intros Hrec Hzero. by apply maximum_recorded.
Qed.

Lemma merge_over_all_shards_witness :
  ∃ v, merge_accms 2 two_shards empty_world = (Ok v, empty_world) ∧
    minimum (start <$> two_shards) = Some (view_start v) ∧
    maximum (end_ <$> two_shards) = Some (view_end v) ∧
    recent_stamp_of 2 two_shards empty_world = (Ok (view_end v), empty_world) ∧
    (recorded two_shards ≠ [] →
     Forall (λ a, ¬ 0 < packets a → end_ a = 0) two_shards →
     maximum (end_ <$> recorded two_shards) = Some (view_end v)).
Proof.
  apply merge_over_all_shards.
  - reflexivity.
  - discriminate.
  - repeat constructor; simpl; lia.
  - repeat constructor; simpl; lia.
Defined.

Example merge_two_shards :
  merge_accms 2 two_shards empty_world = (Ok (3, 180, 0, 9), empty_world) ∧
  minimum (start <$> recorded two_shards) = Some 5.
Proof. split; reflexivity. Qed.

(** C2 (as stated) fails on two CPUs when CPU 0 saw no packet of the
    flow: its zero start stamp becomes the merged start. *)
Lemma shard_aware_merge_fails : ¬ shard_aware_merge 2 two_shards.
Proof.
  intros Hc. destruct (Hc ltac:(discriminate) empty_world) as (v & Hv & Hs & _).
  vm_compute in Hv. injection Hv as <-. vm_compute in Hs. discriminate.
Qed.

(** ** Computations that only read *)

Lemma stateless_ret {A} (a : A) : stateless (ret a).
Proof. by exists (Ok a). Qed.

Lemma stateless_raise {A} e : stateless (@raise A e).
Proof. by exists (Raise e). Qed.

Lemma stateless_bind {A B} (c : M A) (k : A → M B) :
  stateless c → (∀ a, stateless (k a)) → stateless (bind c k).
Proof.
  intros [[a|e] Hc] Hk.
  - destruct (Hk a) as [r Hr]. exists r. intros w. unfold bind.
    by rewrite Hc, Hr.
  - exists (Raise e). intros w. unfold bind. by rewrite Hc.
Qed.

Lemma stateless_for_in {A B} (l : list A) (body : B → A → M B) :
  (∀ acc x, stateless (body acc x)) → ∀ acc, stateless (for_in l acc body).
Proof.
  intros Hbody. induction l as [|x l IH]; intros acc; simpl.
  - apply stateless_ret.
  - apply stateless_bind; [apply Hbody|apply IH].
Qed.

Lemma stateless_getidx {A} (l : list A) j : stateless (getidx l j).
Proof.
  unfold getidx. destruct (l !! j); [apply stateless_ret|apply stateless_raise].
Qed.

Lemma stateless_ntohl le x : stateless (ntohl le x).
Proof.
  unfold ntohl. destruct (_ && _); [apply stateless_ret|apply stateless_raise].
Qed.

Lemma stateless_ntohs le x : stateless (ntohs le x).
Proof.
  unfold ntohs. destruct (_ && _); [apply stateless_ret|apply stateless_raise].
Qed.

Lemma stateless_ip_address n : stateless (ip_address n).
Proof.
  unfold ip_address.
  destruct (_ && _); [apply stateless_ret|apply stateless_raise].
Qed.

Create HintDb stateless.
#[export] Hint Resolve stateless_ret stateless_raise stateless_getidx
  stateless_ntohl stateless_ntohs stateless_ip_address : stateless.

Ltac stateless_tac :=
  repeat first
    [ apply stateless_bind; [|intros ?]
    | apply stateless_for_in; intros ? ?
    | solve [auto with stateless]
    | match goal with |- stateless (if ?b then _ else _) => destruct b end
    | match goal with |- stateless (let '(_, _) := ?p in _) => destruct p end ].

Lemma stateless_recent_stamp_of CPU_COUNT accms :
  stateless (recent_stamp_of CPU_COUNT accms).
Proof. unfold recent_stamp_of. stateless_tac. Qed.

Lemma stateless_merge_accms CPU_COUNT accms :
  stateless (merge_accms CPU_COUNT accms).
Proof. unfold merge_accms. stateless_tac. Qed.

#[export] Hint Resolve stateless_recent_stamp_of stateless_merge_accms
  : stateless.

Section SweepFacts.
Context {F : Type} `{PyFloat F}.
Variable CPU_COUNT : nat.
Variables (offset : F) (agg_time : Z) (now : F).

Lemma stateless_scan_flows cur_flows :
  stateless (scan_flows CPU_COUNT offset agg_time now cur_flows).
Proof. unfold scan_flows. stateless_tac. Qed.

Lemma latest_end_recent accms :
  length accms = CPU_COUNT →
  foldl recent_step 0 (take CPU_COUNT accms) = latest_end accms.
Proof.
  intros <-. rewrite firstn_all. apply recent_step_max.
Qed.

(** *** The first loop *)

Lemma foldl_scan_step items acc :
  foldl (scan_step offset agg_time now) acc items = acc ++ (old_items offset agg_time now items).*1.
Proof.
  revert acc. induction items as [|kv items IH]; intros acc; simpl.
  - by rewrite app_nil_r.
  - rewrite IH. unfold scan_step, old_items. rewrite filter_cons.
    destruct (is_old offset agg_time now kv.2); simpl.
    + destruct (decide (true = true)); [|done]. by rewrite <- app_assoc.
    + destruct (decide (false = true)); done.
Qed.

Lemma scan_flows_ok items w :
  sized_writes CPU_COUNT items →
  scan_flows CPU_COUNT offset agg_time now items w =
  (Ok (old_items offset agg_time now items).*1, w).
Proof.
  intros Hsz. unfold scan_flows.
  rewrite (for_in_pure (λ kv, length kv.2 = CPU_COUNT)
             (scan_step offset agg_time now)); [|
    |done].
  - by rewrite foldl_scan_step.
  - intros acc [k accms] w' Hlen. simpl in *.
    erewrite bind_ok; [|apply recent_stamp_of_ok; lia].
    rewrite latest_end_recent by done. unfold scan_step, exceeds, idle_time, is_old.
    simpl. by destruct (f_ltb _ _).
Qed.

End SweepFacts.

(** ** The second loop and the whole sweep *)

Lemma move_flow_ok k v w :
  flows w !! k = Some v →
  move_flow k w =
  (Ok tt, mkWorld (delete k (flows w)) (<[k:=v]> (cache w))
                  (trace w ++ move_events (k, v)) (written w)).
Proof.
  intros Hk. unfold move_flow, bind, flows_getitem, cache_setitem,
    flows_delitem. rewrite Hk. simpl. rewrite Hk. simpl.
  by rewrite <- app_assoc.
Qed.

Lemma move_flow_missing k w :
  flows w !! k = None → move_flow k w = (Raise KeyError, w).
Proof.
  intros Hk. unfold move_flow, bind, flows_getitem. by rewrite Hk.
Qed.

Lemma lookup_del_all kvs (m : Table) k :
  del_all m kvs !! k = if decide (k ∈ kvs.*1) then None else m !! k.
Proof.
  revert m. induction kvs as [|[k' v'] kvs IH]; intros m; simpl.
  - done.
  - unfold del_all in *. simpl. rewrite IH.
    destruct (decide (k ∈ kvs.*1)) as [Hin|Hnin].
    + rewrite decide_True; [done|by right].
    + destruct (decide (k = k')) as [->|Hne].
      * rewrite decide_True; [|by left]. apply lookup_delete_eq.
      * rewrite decide_False; [by apply lookup_delete_ne|].
        intros Hin. apply elem_of_cons in Hin as [?|?]; done.
Qed.

Lemma lookup_put_all_notin kvs (m : Table) k :
  k ∉ kvs.*1 → put_all m kvs !! k = m !! k.
Proof.
  revert m. induction kvs as [|[k' v'] kvs IH]; intros m Hk; simpl; [done|].
  apply not_elem_of_cons in Hk as [Hne Hk]. unfold put_all in *. simpl.
  rewrite IH by done. by apply lookup_insert_ne.
Qed.

Lemma lookup_put_all_in kvs (m : Table) k v :
  NoDup kvs.*1 → (k, v) ∈ kvs → put_all m kvs !! k = Some v.
Proof.
  revert m. induction kvs as [|[k' v'] kvs IH]; intros m Hnd Hin; simpl.
  - by apply elem_of_nil in Hin.
  - apply NoDup_cons in Hnd as [Hk' Hnd].
    apply elem_of_cons in Hin as [[= -> ->]|Hin].
    + change (put_all (<[k':=v']> m) kvs !! k' = Some v').
      rewrite lookup_put_all_notin by done. apply lookup_insert_eq.
    + by apply IH.
Qed.

(** The last write to a key wins. *)
Lemma lookup_put_all_is_Some kvs (m : Table) k :
  k ∈ kvs.*1 ∨ is_Some (m !! k) → is_Some (put_all m kvs !! k).
Proof.
  revert m. induction kvs as [|[k' v'] kvs IH]; intros m Hk; simpl.
  - destruct Hk as [Hk|Hk]; [by apply elem_of_nil in Hk|done].
  - apply IH. destruct Hk as [Hk|Hk].
    + apply elem_of_cons in Hk as [->|Hk]; [right|by left].
      simpl. rewrite lookup_insert_eq. eauto.
    + right. simpl. destruct (decide (k' = k)) as [->|Hne].
      * rewrite lookup_insert_eq. eauto.
      * by rewrite lookup_insert_ne.
Qed.

Lemma evict_flows_ok kvs w :
  NoDup kvs.*1 →
  (∀ k v, (k, v) ∈ kvs → flows w !! k = Some v) →
  evict_flows kvs.*1 w =
  (Ok tt, mkWorld (del_all (flows w) kvs) (put_all (cache w) kvs)
                  (trace w ++ flat_map move_events kvs) (written w)).
Proof.
  revert w. induction kvs as [|[k v] kvs IH]; intros w Hnd Hin.
  - simpl. unfold ret. rewrite app_nil_r. by destruct w.
  - apply NoDup_cons in Hnd as [Hk Hnd]. unfold evict_flows in *.
    simpl. erewrite bind_ok; [|apply move_flow_ok, Hin; left].
    rewrite IH; [|done|].
    + simpl. by rewrite <- app_assoc.
    + intros k' v' Hkv. simpl. rewrite lookup_delete_ne.
      * apply Hin. by right.
      * intros ->. apply Hk. apply list_elem_of_fmap. by exists (k', v').
Qed.

Section SweepResult.
Context {F : Type} `{PyFloat F}.
Variable CPU_COUNT : nat.
Variables (offset : F) (agg_time : Z) (now : F).

Local Abbreviation olds_w := (olds offset agg_time now).

Lemma olds_NoDup w : NoDup (olds_w w).*1.
Proof.
  eapply sublist_NoDup; [apply (NoDup_fst_map_to_list (flows w))|].
  apply fmap_sublist, sublist_filter.
Qed.

Lemma elem_of_olds w k v :
  (k, v) ∈ olds_w w ↔ flows w !! k = Some v ∧ is_old offset agg_time now v = true.
Proof.
  unfold olds, old_items. rewrite list_elem_of_filter, elem_of_map_to_list.
  simpl. tauto.
Qed.

Lemma elem_of_olds_keys w k :
  k ∈ (olds_w w).*1 ↔
  ∃ v, flows w !! k = Some v ∧ is_old offset agg_time now v = true.
Proof.
  rewrite list_elem_of_fmap. split.
  - intros ([k' v] & -> & Hin). exists v. by apply elem_of_olds.
  - intros (v & Hv). exists (k, v). split; [done|]. by apply elem_of_olds.
Qed.

Lemma sized_items w :
  sized CPU_COUNT (flows w) → sized_writes CPU_COUNT (map_to_list (flows w)).
Proof.
  unfold sized, sized_writes. rewrite map_Forall_to_list.
  intros Hall. eapply Forall_impl; [exact Hall|]. by intros [k v].
Qed.

(** The sweep never raises on a well-sized table; it moves exactly the
    old flows. *)
Lemma sweep_ok w :
  sized CPU_COUNT (flows w) →
  _sweep_flows CPU_COUNT offset agg_time now w =
  (Ok tt, mkWorld (del_all (flows w) (olds_w w)) (put_all (cache w) (olds_w w))
                  (trace w ++ flat_map move_events (olds_w w)) (written w)).
Proof.
  intros Hsz. unfold _sweep_flows.
  erewrite bind_ok; [|reflexivity].
  erewrite bind_ok; [|by apply scan_flows_ok, sized_items].
  apply evict_flows_ok; [apply olds_NoDup|].
  intros k v Hkv. by apply elem_of_olds in Hkv as [? _].
Qed.

Lemma sweep_flows_lookup w k :
  del_all (flows w) (olds_w w) !! k =
  match flows w !! k with
  | Some v => if is_old offset agg_time now v then None else Some v
  | None => None
  end.
Proof.
  rewrite lookup_del_all. destruct (decide (k ∈ (olds_w w).*1)) as [Hin|Hnin].
  - apply elem_of_olds_keys in Hin as (v & -> & ->). done.
  - destruct (flows w !! k) as [v|] eqn:E; [|done].
    destruct (is_old offset agg_time now v) eqn:Eo; [|done].
    destruct Hnin. apply elem_of_olds_keys. eauto.
Qed.

Lemma sweep_cache_lookup w k :
  put_all (cache w) (olds_w w) !! k =
  match flows w !! k with
  | Some v => if is_old offset agg_time now v then Some v else cache w !! k
  | None => cache w !! k
  end.
Proof.
  destruct (decide (k ∈ (olds_w w).*1)) as [Hin|Hnin].
  - apply elem_of_olds_keys in Hin as (v & Hv & Ho). rewrite Hv, Ho.
    apply lookup_put_all_in; [apply olds_NoDup|]. by apply elem_of_olds.
  - rewrite lookup_put_all_notin by done.
    destruct (flows w !! k) as [v|] eqn:E; [|done].
    destruct (is_old offset agg_time now v) eqn:Eo; [|done].
    destruct Hnin. apply elem_of_olds_keys. eauto.
Qed.

End SweepResult.

(** ** The sweep: candidates, the two passes, the drain *)

Lemma f_ltb_irrefl {F} `{PyFloat F} (x : F) : f_ltb x x = false.
Proof.
  destruct (f_ltb x x) eqn:E; [|done]. by rewrite (f_ltb_asym x x E) in E.
Qed.

Lemma del_after_set kvs pre k post :
  flat_map move_events kvs = pre ++ EvFlowsDel k :: post →
  ∃ v pre', pre = pre' ++ [EvCacheSet k v] ∧ (k, v) ∈ kvs.
Proof.
  revert pre. induction kvs as [|[k' v'] kvs IH]; intros pre Heq; simpl in Heq.
  - by destruct pre.
  - destruct pre as [|e1 [|e2 pre]]; simpl in Heq.
    + discriminate.
    + simplify_eq. exists v', []. split; [done|left].
    + injection Heq as <- <- Heq. destruct (IH _ Heq) as (v & pre' & -> & Hin).
      exists v, (EvCacheSet k' v' :: EvFlowsDel k' :: pre').
      split; [done|by right].
Qed.

Lemma transfer_loop_ok (items : list (FlowKey * list Accm)) w :
  for_in items tt (λ _ item, cache_setitem item.1 item.2) w =
  (Ok tt, mkWorld (flows w) (put_all (cache w) items)
                  (trace w ++ ((λ kv, EvCacheSet kv.1 kv.2) <$> items))
                  (written w)).
Proof.
  revert w. induction items as [|[k v] items IH]; intros w; simpl.
  - unfold ret. rewrite app_nil_r. by destruct w.
  - erewrite bind_ok; [|reflexivity]. rewrite IH. simpl.
    by rewrite <- app_assoc.
Qed.

Lemma transfer_flows_ok w :
  transfer_flows w =
  (Ok tt, mkWorld (flows w) (put_all (cache w) (map_to_list (flows w)))
                  (trace w ++ ((λ kv, EvCacheSet kv.1 kv.2) <$> map_to_list (flows w)))
                  (written w)).
Proof.
  unfold transfer_flows. erewrite bind_ok; [|reflexivity].
  apply transfer_loop_ok.
Qed.

Lemma transfer_cache_lookup (m c : Table) k :
  put_all c (map_to_list m) !! k =
  match m !! k with Some v => Some v | None => c !! k end.
Proof.
  destruct (m !! k) as [v|] eqn:E.
  - apply lookup_put_all_in; [apply NoDup_fst_map_to_list|].
    by apply elem_of_map_to_list.
  - apply lookup_put_all_notin. intros Hin.
    apply list_elem_of_fmap in Hin as ([k' v] & -> & Hin).
    apply elem_of_map_to_list in Hin. simpl in E. congruence.
Qed.

Section SweepClaims.
Context {F : Type} `{PyFloat F}.
Variable CPU_COUNT : nat.

(** C5: the first loop of the sweep lists a live flow among the old
    flows exactly when the threshold is strictly less than
    [now - (latest_end/1e9 + offset)], with [latest_end] the largest
    end stamp of its shards; a flow for which the two are equal is not
    listed.  The sweep moves the listed flows to the cache and leaves
    the others in the live table. *)
Theorem sweep_marks_strictly_idle (offset : F) (agg_time : Z) (now : F)
    (w : World) :
  sized CPU_COUNT (flows w) →
  ∃ old_flows w',
    scan_flows CPU_COUNT offset agg_time now (map_to_list (flows w)) w =
      (Ok old_flows, w) ∧
    _sweep_flows CPU_COUNT offset agg_time now w = (Ok tt, w') ∧
    (∀ k, k ∈ old_flows ↔
       (∃ accms, flows w !! k = Some accms ∧
          f_ltb (f_of_int agg_time)
            (f_sub now (f_add (f_of_ns (foldl Z.max 0 (end_ <$> accms)))
                              offset)) = true)) ∧
    (∀ k accms, flows w !! k = Some accms →
       f_sub now (f_add (f_of_ns (foldl Z.max 0 (end_ <$> accms))) offset) =
         f_of_int agg_time →
       (k ∉ old_flows) ∧ flows w' !! k = Some accms) ∧
    (∀ k, k ∈ old_flows →
       flows w' !! k = None ∧ cache w' !! k = flows w !! k) ∧
    (∀ k, k ∉ old_flows →
       flows w' !! k = flows w !! k ∧ cache w' !! k = cache w !! k).
Proof.
  intros Hsz. eexists _, _.
  split; [by apply scan_flows_ok, sized_items|].
  split; [by apply sweep_ok|]. split; [|split; [|split]].
  - intros k. apply elem_of_olds_keys.
  - intros k accms Hk Hidle.
    assert (Hno : is_old offset agg_time now accms = false).
    { unfold is_old, latest_end. rewrite Hidle. apply f_ltb_irrefl. }
    split.
    + intros Hin. apply elem_of_olds_keys in Hin as (v & Hv & Ho).
      congruence.
    + simpl. rewrite sweep_flows_lookup, Hk. by rewrite Hno.
  - intros k Hin. apply elem_of_olds_keys in Hin as (v & Hv & Ho). simpl.
    rewrite sweep_flows_lookup, sweep_cache_lookup, Hv, Ho. done.
  - intros k Hnin. simpl. rewrite sweep_flows_lookup, sweep_cache_lookup.
    destruct (flows w !! k) as [v|] eqn:Hv; [|done].
    destruct (is_old offset agg_time now v) eqn:Ho; [|done].
    destruct Hnin. apply elem_of_olds_keys. eauto.
Qed.

(** C6: the first pass lists all old flows and leaves the world as it
    is; the sweep is the second pass run on that list; the second pass
    stores, for each listed flow in turn, its array from the live table
    in the cache under the same key and then deletes the key from the
    live table, so every deletion comes right after the store of that
    key, and every flow that left the live table is in the cache. *)
Theorem sweep_two_passes (offset : F) (agg_time : Z) (now : F) (w : World) :
  sized CPU_COUNT (flows w) →
  ∃ old_flows w',
    scan_flows CPU_COUNT offset agg_time now (map_to_list (flows w)) w =
      (Ok old_flows, w) ∧
    old_flows = (olds offset agg_time now w).*1 ∧
    _sweep_flows CPU_COUNT offset agg_time now w = evict_flows old_flows w ∧
    evict_flows old_flows w = (Ok tt, w') ∧
    trace w' = trace w ++ flat_map move_events (olds offset agg_time now w) ∧
    (∀ pre k post,
       flat_map move_events (olds offset agg_time now w) =
         pre ++ EvFlowsDel k :: post →
       ∃ v pre', pre = pre' ++ [EvCacheSet k v] ∧ flows w !! k = Some v) ∧
    (∀ k v, flows w !! k = Some v → flows w' !! k = None →
       cache w' !! k = Some v).
Proof.
  intros Hsz.
  pose proof (scan_flows_ok CPU_COUNT offset agg_time now _ w
                (sized_items CPU_COUNT w Hsz)) as Hscan.
  pose proof (sweep_ok CPU_COUNT offset agg_time now w Hsz) as Hsweep.
  assert (Hdef : _sweep_flows CPU_COUNT offset agg_time now w =
                 evict_flows (olds offset agg_time now w).*1 w).
  { unfold _sweep_flows. erewrite bind_ok; [|reflexivity].
    erewrite bind_ok; [|exact Hscan]. done. }
  eexists _, _. split; [exact Hscan|]. split; [done|].
  split; [exact Hdef|]. rewrite Hdef in Hsweep. split; [exact Hsweep|].
  split; [done|]. split.
  - intros pre k post Heq.
    destruct (del_after_set _ _ _ _ Heq) as (v & pre' & -> & Hin).
    exists v, pre'. split; [done|]. by apply elem_of_olds in Hin as [? _].
  - intros k v Hk. simpl. rewrite sweep_flows_lookup, sweep_cache_lookup, Hk.
    by destruct (is_old offset agg_time now v).
Qed.

Lemma drain_steps (offset now : F) (w : World) :
  sized CPU_COUNT (flows w) →
  ∃ w', (_sweep_flows CPU_COUNT offset 0 now ;; transfer_flows) w = (Ok tt, w') ∧
    flows w' = del_all (flows w) (olds offset 0 now w) ∧
    cache w' = put_all (put_all (cache w) (olds offset 0 now w))
                 (map_to_list (del_all (flows w) (olds offset 0 now w))).
Proof.
  intros Hsz. eexists. split.
  - erewrite bind_ok; [|by apply sweep_ok]. apply transfer_flows_ok.
  - done.
Qed.

(** C3 (as amended): the sweep with threshold 0 followed by the
    transfer puts every live flow in the cache; the sweep removes from
    the live table exactly the flows for which 0 is strictly less than
    [now - (latest_end/1e9 + offset)] and the transfer removes none, so
    the live table ends empty when that holds of every flow. *)
Theorem zero_threshold_drain (offset now : F) (w : World) :
  sized CPU_COUNT (flows w) →
  ∃ w', (_sweep_flows CPU_COUNT offset 0 now ;; transfer_flows) w = (Ok tt, w') ∧
    (∀ k accms, flows w !! k = Some accms → cache w' !! k = Some accms) ∧
    (∀ k, flows w' !! k =
       match flows w !! k with
       | Some accms =>
           if f_ltb (f_of_int 0)
                (f_sub now (f_add (f_of_ns (foldl Z.max 0 (end_ <$> accms)))
                                  offset))
           then None else Some accms
       | None => None
       end) ∧
    ((∀ k accms, flows w !! k = Some accms →
        f_ltb (f_of_int 0)
          (f_sub now (f_add (f_of_ns (foldl Z.max 0 (end_ <$> accms)))
                            offset)) = true) →
     flows w' = ∅).
Proof.
  intros Hsz. destruct (drain_steps offset now w Hsz) as (w' & Hrun & Hf & Hc).
  exists w'. split; [done|]. rewrite Hf, Hc. split; [|split].
  - intros k accms Hk. rewrite transfer_cache_lookup, sweep_flows_lookup,
      sweep_cache_lookup, Hk.
    by destruct (is_old offset 0 now accms).
  - intros k. apply sweep_flows_lookup.
  - intros Hall. apply map_empty. intros k. rewrite sweep_flows_lookup.
    destruct (flows w !! k) as [v|] eqn:E; [|done].
    unfold is_old, latest_end. by rewrite (Hall _ _ E).
Qed.

End SweepClaims.

Lemma sized_live_a : sized 1 (flows live_a).
Proof. apply map_Forall_singleton. reflexivity. Qed.

Lemma sized_live_ab : sized 1 (flows live_ab).
Proof.
  apply map_Forall_insert_2; [reflexivity|].
  apply map_Forall_singleton. reflexivity.
Qed.

Lemma sweep_marks_strictly_idle_witness :
  ∃ old_flows w',
    scan_flows 1 (0 : Z) 60 200000000000 (map_to_list (flows live_ab)) live_ab =
      (Ok old_flows, live_ab) ∧
    _sweep_flows 1 (0 : Z) 60 200000000000 live_ab = (Ok tt, w') ∧
    (∀ k, k ∈ old_flows ↔
       (∃ accms, flows live_ab !! k = Some accms ∧
          f_ltb (f_of_int 60)
            (f_sub 200000000000
               (f_add (f_of_ns (foldl Z.max 0 (end_ <$> accms))) 0)) = true)) ∧
    (∀ k accms, flows live_ab !! k = Some accms →
       f_sub 200000000000 (f_add (f_of_ns (foldl Z.max 0 (end_ <$> accms))) 0) =
         f_of_int 60 →
       (k ∉ old_flows) ∧ flows w' !! k = Some accms) ∧
    (∀ k, k ∈ old_flows →
       flows w' !! k = None ∧ cache w' !! k = flows live_ab !! k) ∧
    (∀ k, k ∉ old_flows →
       flows w' !! k = flows live_ab !! k ∧ cache w' !! k = cache live_ab !! k).
Proof. apply (sweep_marks_strictly_idle 1), sized_live_ab. Defined.

(** At 200 s with a threshold of 60 s: [key_a], idle for 100 s, is
    listed and moved; [key_b], idle for 10 s, is not; at 160 s
    [key_a] is idle for exactly 60 s and is not listed. *)
Example sweep_of_live_ab :
  (scan_flows 1 (0 : Z) 60 200000000000 (map_to_list (flows live_ab)) live_ab).1
    = Ok [key_a] ∧
  (scan_flows 1 (0 : Z) 60 160000000000 (map_to_list (flows live_a)) live_a).1
    = Ok [] ∧
  (scan_flows 1 (0 : Z) 60 160000000001 (map_to_list (flows live_a)) live_a).1
    = Ok [key_a].
Proof. vm_compute. repeat split. Qed.

Lemma sweep_two_passes_witness :
  ∃ old_flows w',
    scan_flows 1 (0 : Z) 60 200000000000 (map_to_list (flows live_a)) live_a =
      (Ok old_flows, live_a) ∧
    old_flows = (olds (0 : Z) 60 200000000000 live_a).*1 ∧
    _sweep_flows 1 (0 : Z) 60 200000000000 live_a = evict_flows old_flows live_a ∧
    evict_flows old_flows live_a = (Ok tt, w') ∧
    trace w' =
      trace live_a ++ flat_map move_events (olds (0 : Z) 60 200000000000 live_a) ∧
    (∀ pre k post,
       flat_map move_events (olds (0 : Z) 60 200000000000 live_a) =
         pre ++ EvFlowsDel k :: post →
       ∃ v pre', pre = pre' ++ [EvCacheSet k v] ∧ flows live_a !! k = Some v) ∧
    (∀ k v, flows live_a !! k = Some v → flows w' !! k = None →
       cache w' !! k = Some v).
Proof. apply (sweep_two_passes 1), sized_live_a. Defined.

Lemma zero_threshold_drain_witness :
  ∃ w', (_sweep_flows 1 (0 : Z) 0 190000000000 ;; transfer_flows) live_ab =
          (Ok tt, w') ∧
    (∀ k accms, flows live_ab !! k = Some accms → cache w' !! k = Some accms) ∧
    (∀ k, flows w' !! k =
       match flows live_ab !! k with
       | Some accms =>
           if f_ltb (f_of_int 0)
                (f_sub 190000000000
                   (f_add (f_of_ns (foldl Z.max 0 (end_ <$> accms))) 0))
           then None else Some accms
       | None => None
       end) ∧
    ((∀ k accms, flows live_ab !! k = Some accms →
        f_ltb (f_of_int 0)
          (f_sub 190000000000
             (f_add (f_of_ns (foldl Z.max 0 (end_ <$> accms))) 0)) = true) →
     flows w' = ∅).
Proof. apply (zero_threshold_drain 1), sized_live_ab. Defined.

(** The forced sweep at 190 s removes [key_a], idle for 90 s, and
    leaves [key_b], idle for 0 s; the transfer copies [key_b]. *)
Example drain_of_live_ab :
  let w' := ((_sweep_flows 1 (0 : Z) 0 190000000000 ;; transfer_flows) live_ab).2 in
  flows w' !! key_a = None ∧
  flows w' !! key_b = Some fresh_shard ∧
  cache w' !! key_a = Some one_shard ∧
  cache w' !! key_b = Some fresh_shard.
Proof. vm_compute. repeat split. Qed.

Example drain_of_live_a :
  let w' := ((_sweep_flows 1 (0 : Z) 0 100000000000 ;; transfer_flows) live_a).2 in
  idle_time (0 : Z) 100000000000 (latest_end one_shard) = 0 ∧
  flows w' !! key_a = Some one_shard ∧
  cache w' !! key_a = Some one_shard.
Proof. vm_compute. repeat split. Qed.

(** C3 (as stated) fails for a flow whose last packet is stamped at the
    very instant the forced sweep reads the clock: its idle time is 0,
    which is not negative and not greater than 0; the sweep leaves it in
    the live table and the transfer only copies it. *)
Lemma drain_leaves_zero_idle_flow :
  ¬ drain_empties 1 (0 : Z) 100000000000 live_a.
Proof.
  intros Hc. destruct Hc as (w' & Hrun & _ & Hempty).
  - intros k accms Hk. simpl in Hk.
    apply lookup_singleton_Some in Hk as [<- <-]. reflexivity.
  - destruct (drain_steps 1 (0 : Z) 100000000000 live_a sized_live_a)
      as (w'' & Hrun' & Hf & _).
    rewrite Hrun in Hrun'. injection Hrun' as <-.
    assert (Hk : flows w' !! key_a = Some one_shard).
    { rewrite Hf, sweep_flows_lookup. simpl. rewrite lookup_singleton_eq.
      reflexivity. }
    rewrite Hempty in Hk. by rewrite lookup_empty in Hk.
Qed.

(** ** The run up to the report *)

Lemma count_detach_app evs1 evs2 :
  count_detach (evs1 ++ evs2) = (count_detach evs1 + count_detach evs2)%nat.
Proof. unfold count_detach. by rewrite filter_app, length_app. Qed.

Lemma count_detach_moves kvs : count_detach (flat_map move_events kvs) = 0%nat.
Proof. induction kvs as [|kv kvs IH]; [done|]. simpl. exact IH. Qed.

Lemma count_detach_sets (kvs : list (FlowKey * list Accm)) :
  count_detach ((λ kv, EvCacheSet kv.1 kv.2) <$> kvs) = 0%nat.
Proof. induction kvs as [|kv kvs IH]; [done|]. simpl. exact IH. Qed.

Lemma quiet_refl w : quiet w w.
Proof. split; [done|]. exists []. by rewrite app_nil_r. Qed.

Lemma quiet_trans w1 w2 w3 : quiet w1 w2 → quiet w2 w3 → quiet w1 w3.
Proof.
  intros [Hw1 (e1 & Ht1 & Hc1)] [Hw2 (e2 & Ht2 & Hc2)]. split; [congruence|].
  exists (e1 ++ e2). rewrite Ht2, Ht1, <- app_assoc. split; [done|].
  rewrite count_detach_app. lia.
Qed.

Lemma quiet_detaches w w' : quiet w w' → detaches w' = detaches w.
Proof.
  intros [_ (evs & Ht & Hc)]. unfold detaches.
  rewrite Ht, count_detach_app. lia.
Qed.

Lemma held_put_flows w writes k :
  held w k ∨ k ∈ writes.*1 →
  held (mkWorld (put_all (flows w) writes) (cache w) (trace w) (written w)) k.
Proof.
  intros [[Hf|Hc]|Hin]; [left|by right|left]; simpl;
    apply lookup_put_all_is_Some; auto.
Qed.

Lemma sized_put_all CPU_COUNT (m : Table) kvs :
  sized CPU_COUNT m → sized_writes CPU_COUNT kvs →
  sized CPU_COUNT (put_all m kvs).
Proof.
  revert m. induction kvs as [|[k v] kvs IH]; intros m Hm Hkvs; [done|].
  apply Forall_cons in Hkvs as [Hv Hkvs]. apply IH; [|done].
  by apply map_Forall_insert_2.
Qed.

Lemma sized_del_all CPU_COUNT (m : Table) kvs :
  sized CPU_COUNT m → sized CPU_COUNT (del_all m kvs).
Proof.
  revert m. induction kvs as [|[k v] kvs IH]; intros m Hm; [done|].
  apply IH. by apply map_Forall_delete.
Qed.

Lemma held_transfer w k :
  held w k → is_Some (put_all (cache w) (map_to_list (flows w)) !! k).
Proof.
  intros Hk. rewrite transfer_cache_lookup.
  destruct (flows w !! k) as [v|] eqn:E; [eauto|].
  destruct Hk as [Hk|Hk]; [by rewrite E in Hk|done].
Qed.

(** *** Table operations one at a time *)

#[global] Instance carries_preorder CPU_COUNT : PreOrder (carries CPU_COUNT).
Proof.
  split.
  - intros w. split; [done|]. split; [done|apply quiet_refl].
  - intros w1 w2 w3 (Hs1 & Hh1 & Hq1) (Hs2 & Hh2 & Hq2).
    split; [auto|]. split; [auto|by eapply quiet_trans].
Qed.

Lemma carries_step CPU_COUNT w w' : table_step w w' → carries CPU_COUNT w w'.
Proof.
  intros [w0 k v Hk|w0 k v Hk Hc].
  - split; [done|]. split.
    + intros k' [Hf|Hc]; [by left|right]. simpl.
      destruct (decide (k = k')) as [->|Hne].
      * rewrite lookup_insert_eq. eauto.
      * by rewrite lookup_insert_ne.
    + split; [done|]. by exists [EvCacheSet k v].
  - split; [by apply map_Forall_delete|]. split.
    + intros k' [Hf|Hc']; [|by right].
      destruct (decide (k = k')) as [->|Hne]; [right; simpl; eauto|left].
      simpl. by rewrite lookup_delete_ne.
    + split; [done|]. by exists [EvFlowsDel k].
Qed.

Lemma table_steps_keep (R : World → World → Prop) `{!PreOrder R} :
  (∀ w w', table_step w w' → R w w') →
  ∀ w w', table_steps w w' → R w w'.
Proof.
  intros Hstep w w' Hsteps. induction Hsteps as [w|w1 w2 w3 H12 _ IH].
  - reflexivity.
  - transitivity w2; [by apply Hstep|done].
Qed.

Lemma table_steps_carry CPU_COUNT w w' :
  table_steps w w' → carries CPU_COUNT w w'.
Proof. apply table_steps_keep; [apply _|]. apply carries_step. Qed.

Lemma emit_emitted e w : emit e w = (Ok tt, emitted e w).
Proof. reflexivity. Qed.

Lemma classifier_ok writes w :
  classifier writes w = (Ok tt, classified writes w).
Proof. reflexivity. Qed.

Lemma quiet_classified writes w : quiet w (classified writes w).
Proof. split; [done|]. exists []. by rewrite app_nil_r. Qed.

Lemma move_flow_steps k v w :
  flows w !! k = Some v →
  move_flow k w = (Ok tt, deleted k (stored k v w)) ∧
  table_steps w (deleted k (stored k v w)).
Proof.
  intros Hk. split.
  - rewrite (move_flow_ok k v w Hk). unfold deleted, stored. simpl.
    by rewrite <- app_assoc.
  - eapply rtc_l; [by apply step_store|]. apply rtc_once.
    apply (step_delete _ k v); [done|]. simpl. apply lookup_insert_eq.
Qed.

Lemma lookup_after_move (kvs : list (FlowKey * list Accm)) k v w :
  k ∉ kvs.*1 →
  (∀ k' v', (k', v') ∈ kvs → flows w !! k' = Some v') →
  ∀ k' v', (k', v') ∈ kvs →
    flows (deleted k (stored k v w)) !! k' = Some v'.
Proof.
  intros Hk Hin k' v' Hkv. simpl. rewrite lookup_delete_ne; [by apply Hin|].
  intros ->. apply Hk. apply list_elem_of_fmap. by exists (k', v').
Qed.

(** The second loop, run to its end or cut short, is a sequence of
    table operations. *)
Lemma evict_flows_steps kvs w :
  NoDup kvs.*1 →
  (∀ k v, (k, v) ∈ kvs → flows w !! k = Some v) →
  ∃ w', evict_flows kvs.*1 w = (Ok tt, w') ∧ table_steps w w'.
Proof.
  revert w. induction kvs as [|[k v] kvs IH]; intros w Hnd Hin.
  - exists w. split; [done|apply rtc_refl].
  - apply NoDup_cons in Hnd as [Hk Hnd].
    destruct (move_flow_steps k v w) as [Hmove Hsteps]; [apply Hin; left|].
    destruct (IH (deleted k (stored k v w)) Hnd) as (w' & Hrun & Hsteps').
    { apply lookup_after_move; [done|]. intros k' v' Hkv. apply Hin. by right. }
    exists w'. split; [|by etrans].
    unfold evict_flows in *. simpl. by erewrite bind_ok; [|exact Hmove].
Qed.

Lemma evict_flows_until_steps n kvs w :
  NoDup kvs.*1 →
  (∀ k v, (k, v) ∈ kvs → flows w !! k = Some v) →
  ∃ w', evict_flows_until n kvs.*1 w = (Raise KeyboardInterrupt, w') ∧
    table_steps w w'.
Proof.
  revert n w. induction kvs as [|[k v] kvs IH]; intros n w Hnd Hin.
  - exists w. split; [by destruct n as [|[|n]]|apply rtc_refl].
  - apply NoDup_cons in Hnd as [Hk Hnd].
    assert (Hkv : flows w !! k = Some v) by (apply Hin; left).
    destruct n as [|[|n]].
    + exists w. split; [done|apply rtc_refl].
    + exists (stored k v w). split; [|by apply rtc_once, step_store].
      simpl. unfold bind, flows_getitem. by rewrite Hkv.
    + destruct (move_flow_steps k v w Hkv) as [Hmove Hsteps].
      destruct (IH n (deleted k (stored k v w)) Hnd) as (w' & Hrun & Hsteps').
      { apply lookup_after_move; [done|]. intros k' v' Hkv'. apply Hin.
        by right. }
      exists w'. split; [|by etrans].
      simpl. by erewrite bind_ok; [|exact Hmove].
Qed.

Lemma stores_steps (items : list (FlowKey * list Accm)) w :
  (∀ k v, (k, v) ∈ items → flows w !! k = Some v) →
  ∃ w', for_in items tt (λ _ item, cache_setitem item.1 item.2) w =
          (Ok tt, w') ∧
    table_steps w w'.
Proof.
  revert w. induction items as [|[k v] items IH]; intros w Hin.
  - exists w. split; [done|apply rtc_refl].
  - destruct (IH (stored k v w)) as (w' & Hrun & Hsteps).
    { intros k' v' Hkv. apply Hin. by right. }
    exists w'. split.
    + simpl. by erewrite bind_ok; [|reflexivity].
    + eapply rtc_l; [|exact Hsteps]. apply step_store, Hin. left.
Qed.

Section SweepStep.
Context {F : Type} `{PyFloat F}.
Variable CPU_COUNT : nat.
Variables (offset : F) (agg_time : Z).

Lemma sweep_steps (now : F) w :
  sized CPU_COUNT (flows w) →
  table_steps w (swept offset agg_time now w).
Proof.
  intros Hsz.
  destruct (evict_flows_steps (olds offset agg_time now w) w)
    as (w' & Hrun & Hsteps).
  { apply olds_NoDup. }
  { intros k v Hkv. by apply elem_of_olds in Hkv as [? _]. }
  assert (Hsweep : _sweep_flows CPU_COUNT offset agg_time now w = (Ok tt, w')).
  { unfold _sweep_flows. erewrite bind_ok; [|reflexivity].
    by erewrite bind_ok; [|by apply scan_flows_ok, sized_items]. }
  rewrite sweep_ok in Hsweep by done. by injection Hsweep as <-.
Qed.

(** A sweep that Ctrl-C cuts short has done some of the table
    operations. *)
Lemma sweep_until_steps (n : nat) (now : F) w :
  sized CPU_COUNT (flows w) →
  ∃ w', sweep_flows_until CPU_COUNT n offset agg_time now w =
          (Raise KeyboardInterrupt, w') ∧
    table_steps w w'.
Proof.
  intros Hsz.
  destruct (evict_flows_until_steps n (olds offset agg_time now w) w)
    as (w' & Hrun & Hsteps).
  { apply olds_NoDup. }
  { intros k v Hkv. by apply elem_of_olds in Hkv as [? _]. }
  exists w'. split; [|done]. unfold sweep_flows_until.
  erewrite bind_ok; [|reflexivity].
  by erewrite bind_ok; [|by apply scan_flows_ok, sized_items].
Qed.

(** The sweep of one tick: it returns, or raises [KeyboardInterrupt]
    when Ctrl-C reaches it. *)
Lemma sweep_tick_steps (t : Tick F) w :
  sized CPU_COUNT (flows w) →
  ∃ w', sweep_tick CPU_COUNT offset agg_time t w =
          (match interrupt t with
           | Some (InSweep _) => Raise KeyboardInterrupt
           | _ => Ok tt
           end, w') ∧
    table_steps w w'.
Proof.
  intros Hsz. unfold sweep_tick.
  destruct (interrupt t) as [[|n]|];
    try (eexists; split; [by apply sweep_ok|by apply sweep_steps]).
  by apply sweep_until_steps.
Qed.

(** One sweep of a well-sized live table: it returns, keeps every key
    in one of the two tables, and detaches nothing. *)
Lemma sweep_step (now : F) w :
  sized CPU_COUNT (flows w) →
  ∃ w', _sweep_flows CPU_COUNT offset agg_time now w = (Ok tt, w') ∧
    sized CPU_COUNT (flows w') ∧
    (∀ k, held w k → held w' k) ∧
    quiet w w'.
Proof.
  intros Hsz. eexists. split; [by apply sweep_ok|].
  destruct (table_steps_carry CPU_COUNT _ _ (sweep_steps now w Hsz))
    as (Hs & Hh & Hq).
  auto.
Qed.

End SweepStep.

Lemma transfer_steps w : table_steps w (transferred w).
Proof.
  destruct (stores_steps (map_to_list (flows w)) w) as (w' & Hrun & Hsteps).
  { intros k v Hkv. by apply elem_of_map_to_list. }
  rewrite transfer_loop_ok in Hrun. by injection Hrun as <-.
Qed.

Lemma transfer_until_steps n w :
  ∃ w', transfer_flows_until n w = (Raise KeyboardInterrupt, w') ∧
    table_steps w w'.
Proof.
  destruct (stores_steps (take n (map_to_list (flows w))) w)
    as (w' & Hrun & Hsteps).
  { intros k v Hkv. apply elem_of_map_to_list.
    eapply subseteq_take, Hkv. }
  exists w'. split; [|done]. unfold transfer_flows_until.
  erewrite bind_ok; [|reflexivity]. by erewrite bind_ok; [|exact Hrun].
Qed.

Lemma existsb_interrupted_cons {F} (t : Tick F) ts :
  existsb interrupted (t :: ts) = interrupted t || existsb interrupted ts.
Proof. done. Qed.

Section RunFacts.
Context {F : Type} `{PyFloat F}.
Variable CPU_COUNT : nat.
Variables (offset : F) (agg_time : Z).

(** What a sleep of non-negative length does. *)
Lemma sleep_ok (t : Tick F) w :
  0 ≤ agg_time →
  sleep agg_time t w =
  (match interrupt t with
   | Some InSleep => Raise KeyboardInterrupt
   | _ => Ok tt
   end, classified (arrivals t) w).
Proof.
  intros Hagg. unfold sleep. destruct (Z.ltb_spec agg_time 0); [lia|].
  unfold bind, classifier. by destruct (interrupt t) as [[|n]|].
Qed.

Lemma collect_run ts w :
  0 ≤ agg_time →
  sized CPU_COUNT (flows w) →
  Forall (λ t, sized_writes CPU_COUNT (arrivals t)) ts →
  ∃ w', collect CPU_COUNT offset agg_time ts w =
          (if existsb interrupted ts then Raise KeyboardInterrupt else Ok tt,
           w') ∧
    sized CPU_COUNT (flows w') ∧
    (∀ k, held w k ∨ k ∈ (flat_map arrivals (ticks_run ts)).*1 → held w' k) ∧
    quiet w w'.
Proof.
  intros Hagg. revert w. induction ts as [|t ts IH]; intros w Hsz Hts.
  - exists w. split; [done|]. split; [done|]. split; [|apply quiet_refl].
    intros k [Hk|Hk]; [done|by apply elem_of_nil in Hk].
  - apply Forall_cons in Hts as [Ht Hts].
    set (w1 := classified (arrivals t) w).
    assert (Hsz1 : sized CPU_COUNT (flows w1)) by by apply sized_put_all.
    assert (Hh1 : ∀ k, held w k ∨ k ∈ (arrivals t).*1 → held w1 k)
      by (intros k; apply held_put_flows).
    assert (Hq1 : quiet w w1) by apply quiet_classified.
    pose proof (sleep_ok t w Hagg) as Hsleep. fold w1 in Hsleep.
    destruct (sweep_tick_steps CPU_COUNT offset agg_time t w1 Hsz1)
      as (w2 & Hsw & Hsteps).
    destruct (table_steps_carry CPU_COUNT _ _ Hsteps) as (Hs2 & Hh2 & Hq2).
    rewrite existsb_interrupted_cons. simpl. unfold interrupted at 1 3.
    destruct (interrupt t) as [[|n]|] eqn:Eint; simpl.
    + exists w1. split; [by erewrite bind_raise; [|exact Hsleep]|].
      split; [done|]. split; [|done].
      intros k Hk. apply Hh1. by rewrite app_nil_r in Hk.
    + exists w2. split.
      { erewrite bind_ok; [|exact Hsleep].
        by erewrite bind_raise; [|exact Hsw]. }
      split; [auto|]. split; [|exact (quiet_trans _ _ _ Hq1 Hq2)].
      intros k Hk. apply Hh2, Hh1. by rewrite app_nil_r in Hk.
    + destruct (IH w2 (Hs2 Hsz1) Hts) as (w3 & Hrun & Hsz3 & Hh3 & Hq3).
      exists w3. split.
      { erewrite bind_ok; [|exact Hsleep]. by erewrite bind_ok; [|exact Hsw]. }
      split; [done|]. split.
      * intros k Hk. apply Hh3. rewrite fmap_app, elem_of_app in Hk.
        destruct Hk as [Hk|[Hk|Hk]]; [left|left|by right];
          apply Hh2, Hh1; auto.
      * eapply quiet_trans; [exact Hq1|]. eapply quiet_trans; done.
Qed.

(** With sleeps of non-negative length the loop under its handler
    always returns; the handler detaches once, after everything the
    loop did, when Ctrl-C came. *)
Lemma collecting_run (s : Schedule F) w :
  0 ≤ agg_time →
  sized CPU_COUNT (flows w) →
  Forall (λ t, sized_writes CPU_COUNT (arrivals t)) (ticks s) →
  ∃ w', collecting CPU_COUNT offset agg_time s w = (Ok tt, w') ∧
    sized CPU_COUNT (flows w') ∧
    (∀ k, held w k ∨ k ∈ (flat_map arrivals (ticks_run (ticks s))).*1 →
          held w' k) ∧
    written w' = written w ∧
    ∃ evs, count_detach evs = 0%nat ∧
      trace w' =
        trace w ++ evs ++ (if was_interrupted s then [EvRemoveXdp] else []).
Proof.
  intros Hagg Hsz Hts.
  destruct (collect_run (ticks s) w Hagg Hsz Hts)
    as (w1 & Hrun & Hsz1 & Hh1 & Hw1 & evs & Ht1 & Hc1).
  unfold collecting, try_except, was_interrupted. rewrite Hrun.
  destruct (existsb interrupted (ticks s)); simpl.
  - eexists. split; [done|]. simpl. split; [done|]. split; [done|].
    split; [done|]. exists evs. split; [done|].
    by rewrite Ht1, <- app_assoc.
  - exists w1. split; [done|]. split; [done|]. split; [done|].
    split; [done|]. exists evs. split; [done|]. by rewrite app_nil_r.
Qed.

(** Lines 128-138 return unless Ctrl-C reaches them, and detach
    nothing. *)
Lemma drain_run (s : Schedule F) w :
  sized CPU_COUNT (flows w) →
  sized_writes CPU_COUNT (drain_arrivals s) →
  ∃ w', drain CPU_COUNT offset s w =
          (if drain_interrupted s then Raise KeyboardInterrupt else Ok tt,
           w') ∧
    (drain_interrupt s = None →
     ∀ k, held w k ∨ k ∈ (drain_arrivals s).*1 ∨ k ∈ (late_arrivals s).*1 →
          is_Some (cache w' !! k)) ∧
    quiet w w'.
Proof.
  intros Hsz Hdr.
  set (w1 := classified (drain_arrivals s) w).
  assert (Hsz1 : sized CPU_COUNT (flows w1)) by by apply sized_put_all.
  assert (Hq1 : quiet w w1) by apply quiet_classified.
  destruct (sweep_step CPU_COUNT offset 0 (drain_now s) w1 Hsz1)
    as (w2 & Hsw & Hsz2 & Hh2 & Hq2).
  set (w3 := classified (late_arrivals s) w2).
  assert (Hq3 : quiet w2 w3) by apply quiet_classified.
  unfold drain, drain_interrupted.
  destruct (drain_interrupt s) as [[n|n]|] eqn:Eint.
  - destruct (sweep_until_steps CPU_COUNT offset 0 n (drain_now s) w1 Hsz1)
      as (w2' & Hsw' & Hsteps).
    destruct (table_steps_carry CPU_COUNT _ _ Hsteps) as (_ & _ & Hq2').
    exists w2'. split; [|split; [done|exact (quiet_trans _ _ _ Hq1 Hq2')]].
    erewrite bind_ok; [|reflexivity]. fold (classified (drain_arrivals s) w).
    by erewrite bind_raise; [|exact Hsw'].
  - destruct (transfer_until_steps n w3) as (w4 & Htr & Hsteps).
    destruct (table_steps_carry CPU_COUNT _ _ Hsteps) as (_ & _ & Hq4).
    exists w4. split; [|split; [done|]].
    + erewrite bind_ok; [|reflexivity].
      fold (classified (drain_arrivals s) w).
      erewrite bind_ok; [|exact Hsw]. erewrite bind_ok; [|reflexivity].
      exact Htr.
    + eapply quiet_trans; [exact Hq1|]. eapply quiet_trans; [exact Hq2|].
      exact (quiet_trans _ _ _ Hq3 Hq4).
  - exists (transferred w3). split; [|split].
    + erewrite bind_ok; [|reflexivity].
      fold (classified (drain_arrivals s) w).
      erewrite bind_ok; [|exact Hsw]. erewrite bind_ok; [|reflexivity].
      apply transfer_flows_ok.
    + intros _ k Hk. apply (held_transfer w3).
      destruct Hk as [Hk|[Hk|Hk]].
      * apply held_put_flows. left. apply Hh2, held_put_flows. by left.
      * apply held_put_flows. left. apply Hh2, held_put_flows. by right.
      * apply held_put_flows. by right.
    + destruct (table_steps_carry CPU_COUNT _ _ (transfer_steps w3))
        as (_ & _ & Hq4).
      eapply quiet_trans; [exact Hq1|]. eapply quiet_trans; [exact Hq2|].
      exact (quiet_trans _ _ _ Hq3 Hq4).
Qed.

End RunFacts.



Lemma emit_ok e w :
  emit e w = (Ok tt, mkWorld (flows w) (cache w) (trace w ++ [e]) (written w)).
Proof. reflexivity. Qed.

(** [main] is the run up to the end of the drain, then the report. *)
Lemma main_split {F : Type} `{PyFloat F} CPU_COUNT little_endian (offset : F)
    agg_time (s : Schedule F) w :
  main CPU_COUNT little_endian offset agg_time s w =
  (collect_and_drain CPU_COUNT offset agg_time s ;;
   classifier (unseen_arrivals s) ;;
   report CPU_COUNT little_endian offset s) w.
Proof.
  unfold main, collect_and_drain, bind.
  destruct (emit EvAttachXdp w) as [[[]|e] w0]; [|done].
  destruct (collecting CPU_COUNT offset agg_time s w0) as [[[]|e] w1]; [|done].
  by destruct (drain CPU_COUNT offset s w1) as [[[]|e] w2].
Qed.

Section RunToReport.
Context {F : Type} `{PyFloat F}.
Variable CPU_COUNT : nat.
Variables (offset : F) (agg_time : Z).


End RunToReport.


(** ** The report *)

Lemma keeps_ret {A} (P : World → World → Prop) `{!Reflexive P} (a : A) :
  keeps P (ret a).
Proof. intros w r w' [= <- <-]. reflexivity. Qed.

Lemma keeps_raise {A} (P : World → World → Prop) `{!Reflexive P} e :
  keeps P (@raise A e).
Proof. intros w r w' [= <- <-]. reflexivity. Qed.

Lemma keeps_bind {A B} (P : World → World → Prop) `{!Transitive P}
    (c : M A) (k : A → M B) :
  keeps P c → (∀ a, keeps P (k a)) → keeps P (bind c k).
Proof.
  intros Hc Hk w r w'. unfold bind. destruct (c w) as [[a|e] w1] eqn:E.
  - intros Hr. transitivity w1; [by eapply Hc|by eapply Hk].
  - intros [= <- <-]. by eapply Hc.
Qed.

Lemma keeps_for_in {A B} (P : World → World → Prop) `{!PreOrder P}
    (l : list A) (body : B → A → M B) :
  (∀ acc x, keeps P (body acc x)) → ∀ acc, keeps P (for_in l acc body).
Proof.
  intros Hbody. induction l as [|x l IH]; intros acc; simpl.
  - apply keeps_ret, _.
  - apply keeps_bind; [apply _|apply Hbody|apply IH].
Qed.

Lemma keeps_stateless {A} (P : World → World → Prop) `{!Reflexive P}
    (c : M A) :
  stateless c → keeps P c.
Proof. intros [r0 Hc] w r w'. rewrite Hc. intros [= <- <-]. reflexivity. Qed.

#[global] Instance only_writes_preorder : PreOrder only_writes.
Proof.
  split.
  - by intros w.
  - intros w1 w2 w3 (?&?&?) (?&?&?). unfold only_writes. split_and!; congruence.
Qed.

Lemma keeps_f_write s : keeps only_writes (f_write s).
Proof. by intros w r w' [= <- <-]. Qed.

Section ReportFacts.
Context {F : Type} `{PyFloat F}.
Variable CPU_COUNT : nat.
Variable little_endian : bool.
Variable offset : F.

Lemma stateless_decode_addrs attrs : stateless (decode_addrs little_endian attrs).
Proof. unfold decode_addrs. stateless_tac. Qed.

Lemma stateless_row_fields item :
  stateless (row_fields CPU_COUNT little_endian offset item).
Proof.
  unfold row_fields. apply stateless_bind; [auto with stateless|].
  intros [[[n_packets n_bytes] st] en].
  apply stateless_bind; [apply stateless_decode_addrs|]. intros ips.
  stateless_tac.
Qed.

Lemma stateless_compile_row item :
  stateless (compile_row CPU_COUNT little_endian offset item).
Proof.
  unfold compile_row. apply stateless_bind; [apply stateless_row_fields|].
  intros fields. apply stateless_ret.
Qed.

Lemma stateless_sort_key x : stateless (sort_key (F:=F) x).
Proof.
  unfold sort_key. destruct (f_parse _); [apply stateless_ret|apply stateless_raise].
Qed.

Lemma stateless_sorted l : stateless (sorted (F:=F) l).
Proof.
  unfold sorted. apply stateless_bind; [|intros; apply stateless_ret].
  apply stateless_for_in. intros acc x.
  apply stateless_bind; [apply stateless_sort_key|intros; apply stateless_ret].
Qed.

Lemma keeps_compile_rows can_open :
  keeps eq (compile_rows CPU_COUNT little_endian offset can_open).
Proof.
  unfold compile_rows. apply keeps_bind; [apply _| |intros _].
  - destruct can_open; [apply keeps_ret|apply keeps_raise]; apply _.
  - apply keeps_bind; [apply _| |intros all_flows].
    + by intros w r w' [= <- <-].
    + apply keeps_for_in; [apply _|]. intros acc item.
      apply keeps_stateless; [apply _|].
      apply stateless_bind; [apply stateless_compile_row|].
      intros; apply stateless_ret.
Qed.

(** Whatever the cache holds and however the report ends, the report
    detaches the classifier exactly once and touches no table. *)
Lemma report_trace (s : Schedule F) w :
  ∃ r w', report CPU_COUNT little_endian offset s w = (r, w') ∧
    flows w' = flows w ∧ cache w' = cache w ∧
    trace w' = trace w ++ [EvRemoveXdp].
Proof.
  unfold report.
  destruct (compile_rows CPU_COUNT little_endian offset (open_ok s) w)
    as [r0 w0] eqn:E0.
  assert (w0 = w) as -> by (symmetry; by eapply keeps_compile_rows).
  set (w1 := mkWorld (flows w) (cache w) (trace w ++ [EvRemoveXdp]) (written w)).
  assert (Htf : ∃ r1, try_finally
            (compile_rows CPU_COUNT little_endian offset (open_ok s))
            (teardown (open_ok s)) w = (r1, w1) ∧
            (∀ a, r1 = Ok a → r0 = Ok a)).
  { unfold try_finally. rewrite E0. unfold teardown, bind, emit.
    destruct (open_ok s), r0; simpl; eexists; (split; [reflexivity|]);
      intros a' Ha'; congruence. }
  destruct Htf as (r1 & Htf & _). unfold bind at 1. rewrite Htf.
  destruct r1 as [flow_set|e]; [|by exists (Raise e), w1].
  destruct (stateless_sorted (elements flow_set)) as [r2 Hr2].
  unfold bind at 1. rewrite Hr2.
  destruct r2 as [s_flow_set|e]; [|by exists (Raise e), w1].
  match goal with |- ∃ r w', ?c w1 = _ ∧ _ =>
    destruct (c w1) as [r3 w3] eqn:E3;
    assert (Hk : keeps only_writes c) end.
  { apply keeps_bind; [apply _|apply keeps_f_write|intros _].
    apply keeps_for_in; [apply _|]. intros _ x. apply keeps_f_write. }
  destruct (Hk _ _ _ E3) as (Hf & Hc & Ht). by exists r3, w3.
Qed.

End ReportFacts.

(** ** [main]: the detachments *)

Section MainFacts.
Context {F : Type} `{PyFloat F}.
Variable CPU_COUNT : nat.
Variable little_endian : bool.
Variables (offset : F) (agg_time : Z).

(** The calls of a run with sleeps of non-negative length: the handler
    of the loop detaches when Ctrl-C came during the loop; the
    [finally] of the report detaches unless Ctrl-C reached lines
    128-138, in which case the run ends there. *)
Lemma main_run (s : Schedule F) w :
  0 ≤ agg_time →
  sized CPU_COUNT (flows w) →
  sized_schedule CPU_COUNT s →
  ∃ r w' loop_evs drain_evs,
    main CPU_COUNT little_endian offset agg_time s w = (r, w') ∧
    count_detach loop_evs = 0%nat ∧
    count_detach drain_evs = 0%nat ∧
    trace w' =
      trace w ++ [EvAttachXdp] ++ loop_evs ++
      (if was_interrupted s then [EvRemoveXdp] else []) ++
      drain_evs ++ (if drain_interrupted s then [] else [EvRemoveXdp]) ∧
    (drain_interrupted s = true → r = Raise KeyboardInterrupt).
Proof.
  intros Hagg Hsz (Hts & Hdr & _).
  set (w0 := emitted EvAttachXdp w).
  destruct (collecting_run CPU_COUNT offset agg_time s w0 Hagg Hsz Hts)
    as (w1 & Hcol & Hsz1 & _ & _ & evs1 & Hc1 & Ht1).
  destruct (drain_run CPU_COUNT offset s w1 Hsz1 Hdr)
    as (w2 & Hdrain & _ & _ & evs2 & Ht2 & Hc2).
  assert (Hpre : collect_and_drain CPU_COUNT offset agg_time s w =
            (if drain_interrupted s then Raise KeyboardInterrupt else Ok tt,
             w2)).
  { unfold collect_and_drain. erewrite bind_ok; [|apply emit_ok].
    erewrite bind_ok; [|exact Hcol]. exact Hdrain. }
  assert (Hw2 : trace w2 =
            trace w ++ [EvAttachXdp] ++ evs1 ++
            (if was_interrupted s then [EvRemoveXdp] else []) ++ evs2).
  { rewrite Ht2, Ht1. simpl. by rewrite <- !app_assoc. }
  rewrite main_split. destruct (drain_interrupted s).
  - exists (Raise KeyboardInterrupt), w2, evs1, evs2.
    split; [by erewrite bind_raise; [|exact Hpre]|].
    split; [done|]. split; [done|]. split; [|done].
    by rewrite Hw2, app_nil_r.
  - destruct (report_trace CPU_COUNT little_endian offset s
                (classified (unseen_arrivals s) w2))
      as (r & w3 & Hrep & _ & _ & Ht3).
    exists r, w3, evs1, evs2. split; [|split; [done|split; [done|split]]].
    + erewrite bind_ok; [|exact Hpre]. by erewrite bind_ok; [|reflexivity].
    + rewrite Ht3. simpl. rewrite Hw2. by rewrite <- !app_assoc.
    + done.
Qed.

(** C4: teardown is not invoked on every exit path.  A run whose
    collecting loop ends by itself and which Ctrl-C reaches in the
    forced sweep or the transfer (lines 128-138, which no [try]
    encloses) ends with [KeyboardInterrupt] without a single call of
    [remove_xdp]: the classifier stays attached. *)
Theorem drain_interrupt_skips_teardown (s : Schedule F) (w : World) :
  0 ≤ agg_time →
  sized CPU_COUNT (flows w) →
  sized_schedule CPU_COUNT s →
  was_interrupted s = false →
  drain_interrupted s = true →
  ∃ w' evs,
    main CPU_COUNT little_endian offset agg_time s w =
      (Raise KeyboardInterrupt, w') ∧
    trace w' = trace w ++ EvAttachXdp :: evs ∧
    (EvRemoveXdp ∉ evs) ∧
    detaches w' = detaches w.
Proof.
  intros Hagg Hsz Hs Hloop Hdrain.
  destruct (main_run s w Hagg Hsz Hs)
    as (r & w' & evs1 & evs2 & Hm & Hc1 & Hc2 & Ht & Hr).
  rewrite Hloop, Hdrain in Ht. simpl in Ht. rewrite app_nil_r in Ht.
  assert (Hc : count_detach (evs1 ++ evs2) = 0%nat)
    by (rewrite count_detach_app; lia).
  exists w', (evs1 ++ evs2). split; [by rewrite Hm, Hr|].
  split; [done|]. split.
  - intros Hin. unfold count_detach in Hc.
    apply length_zero_iff_nil in Hc.
    assert (Hin' : EvRemoveXdp ∈ filter (λ e, e = EvRemoveXdp) (evs1 ++ evs2))
      by by apply list_elem_of_filter.
    rewrite Hc in Hin'. by apply elem_of_nil in Hin'.
  - unfold detaches. rewrite Ht, count_detach_app.
    change (EvAttachXdp :: evs1 ++ evs2) with ([EvAttachXdp] ++ (evs1 ++ evs2)).
    rewrite count_detach_app, Hc.
    change (count_detach [EvAttachXdp]) with 0%nat. lia.
Qed.


End MainFacts.

Lemma sized_empty CPU_COUNT : sized CPU_COUNT ∅.
Proof. apply map_Forall_empty. Qed.

Lemma sized_quiet_run : sized_schedule 1 quiet_run.
Proof. repeat constructor. Qed.


Lemma sized_failing_run : sized_schedule 1 failing_run.
Proof. repeat constructor. Qed.


Lemma sized_drain_interrupted_run : sized_schedule 1 drain_interrupted_run.
Proof. repeat constructor. Qed.


(** In that run Ctrl-C leaves [key_a] in both tables; the drain stores
    it again, and the cache ends with one binding for each of the two
    flows. *)
Example cache_after_interrupted_sweep :
  let w1 := (collecting 1 (0 : Z) 60 sweep_interrupted_run
               (emitted EvAttachXdp live_a)).2 in
  let w' := (collect_and_drain 1 (0 : Z) 60 sweep_interrupted_run live_a).2 in
  flows w1 !! key_a = Some one_shard ∧
  cache w1 !! key_a = Some one_shard ∧
  occurrences key_a (map_to_list (cache w')) = 1%nat ∧
  occurrences key_b (map_to_list (cache w')) = 1%nat ∧
  length (map_to_list (cache w')) = 2%nat.
Proof. vm_compute. repeat split. Qed.


Example run_of_unseen_flow :
  let w' := (main 1 true (0 : Z) 60 unseen_run live_a).2 in
  (main 1 true (0 : Z) 60 unseen_run live_a).1 = Ok tt ∧
  flows w' !! key_b = Some one_shard ∧
  cache w' !! key_b = None ∧
  trace w' = [EvAttachXdp; EvCacheSet key_a one_shard; EvFlowsDel key_a;
              EvRemoveXdp].
Proof. vm_compute. repeat split. Qed.

Lemma drain_interrupt_skips_teardown_witness :
  ∃ w' evs,
    main 1 true (0 : Z) 60 drain_interrupted_run live_a =
      (Raise KeyboardInterrupt, w') ∧
    trace w' = trace live_a ++ EvAttachXdp :: evs ∧
    (EvRemoveXdp ∉ evs) ∧
    detaches w' = detaches live_a.
Proof.
  apply drain_interrupt_skips_teardown;
    [lia|apply sized_live_a|apply sized_drain_interrupted_run
    |reflexivity|reflexivity].
Defined.

(** The run of the witness, call by call. *)
Example run_of_drain_interrupt :
  (main 1 true (0 : Z) 60 drain_interrupted_run live_a).1 =
    Raise KeyboardInterrupt ∧
  trace (main 1 true (0 : Z) 60 drain_interrupted_run live_a).2 =
    [EvAttachXdp; EvCacheSet key_a one_shard; EvFlowsDel key_a;
     EvCacheSet key_b fresh_shard; EvFlowsDel key_b].
Proof. vm_compute. repeat split. Qed.


(** The exit paths on concrete runs: the window closes; Ctrl-C ends a
    sleep; Ctrl-C ends a sweep; the report raises. *)
Example normal_path :
  (main 1 true (0 : Z) 60 quiet_run live_a).1 = Ok tt ∧
  detaches (main 1 true (0 : Z) 60 quiet_run live_a).2 = 1%nat.
Proof. vm_compute. repeat split. Qed.

Example interrupted_path :
  (main 1 true (0 : Z) 60 interrupted_run live_a).1 = Ok tt ∧
  detaches (main 1 true (0 : Z) 60 interrupted_run live_a).2 = 2%nat.
Proof. vm_compute. repeat split. Qed.

Example interrupted_sweep_path :
  (main 1 true (0 : Z) 60 sweep_interrupted_run live_a).1 = Ok tt ∧
  detaches (main 1 true (0 : Z) 60 sweep_interrupted_run live_a).2 = 2%nat.
Proof. vm_compute. repeat split. Qed.

Example failing_path :
  (main 1 true (0 : Z) 60 failing_run live_a).1 = Raise AttributeError ∧
  detaches (main 1 true (0 : Z) 60 failing_run live_a).2 = 1%nat.
Proof. vm_compute. repeat split. Qed.

(** ** Rendering one row *)

Lemma append_assoc (a b c : string) : (a +:+ b) +:+ c = a +:+ (b +:+ c).
Proof.
  induction a as [|x a IH]; [done|].
  change (String x ((a +:+ b) +:+ c) = String x (a +:+ (b +:+ c))).
  by rewrite IH.
Qed.

Lemma byte_range x : 0 ≤ Z.land x 255 < 256.
Proof.
  change 255 with (Z.ones 8). rewrite Z.land_ones by lia.
  apply Z.mod_pos_bound. lia.
Qed.

Lemma lor_range a b n :
  0 ≤ n → 0 ≤ a < 2 ^ n → 0 ≤ b < 2 ^ n → 0 ≤ Z.lor a b < 2 ^ n.
Proof.
  intros Hn Ha Hb. split; [apply Z.lor_nonneg; lia|].
  destruct (decide (a = 0)) as [->|Hna]; [rewrite Z.lor_0_l; lia|].
  destruct (decide (b = 0)) as [->|Hnb]; [rewrite Z.lor_0_r; lia|].
  assert (0 < Z.lor a b).
  { assert (0 ≤ Z.lor a b) by (apply Z.lor_nonneg; lia).
    destruct (decide (Z.lor a b = 0)) as [E|]; [|lia].
    apply Z.lor_eq_0_iff in E. lia. }
  apply Z.log2_lt_pow2; [done|]. rewrite Z.log2_lor by lia.
  apply Z.max_lub_lt; apply Z.log2_lt_pow2; lia.
Qed.

Lemma bswap32_range x : 0 ≤ bswap32 x < 2 ^ 32.
Proof.
  unfold bswap32.
  pose proof (byte_range x). pose proof (byte_range (Z.shiftr x 8)).
  pose proof (byte_range (Z.shiftr x 16)). pose proof (byte_range (Z.shiftr x 24)).
  repeat apply lor_range; try lia; rewrite ?Z.shiftl_mul_pow2 by lia; lia.
Qed.

Lemma host32_range le x : 0 ≤ x < 2 ^ 32 → 0 ≤ host32 le x < 2 ^ 32.
Proof. intros Hx. destruct le; simpl; [apply bswap32_range|done]. Qed.

Lemma ntohl_ok le x w :
  0 ≤ x < 2 ^ 32 → ntohl le x w = (Ok (host32 le x), w).
Proof.
  intros Hx. unfold ntohl.
  destruct (Z.leb_spec 0 x); [|lia]. destruct (Z.ltb_spec x (2 ^ 32)); [|lia].
  done.
Qed.

Lemma ntohs_ok le x w :
  0 ≤ x < 2 ^ 16 → ntohs le x w = (Ok (host16 le x), w).
Proof.
  intros Hx. unfold ntohs.
  destruct (Z.leb_spec 0 x); [|lia]. destruct (Z.ltb_spec x (2 ^ 16)); [|lia].
  done.
Qed.

Lemma ip_address_ok n w :
  0 ≤ n < 2 ^ 32 → ip_address n w = (Ok (dotted_quad n), w).
Proof.
  intros Hx. unfold ip_address.
  destruct (Z.leb_spec 0 n); [|lia]. destruct (Z.ltb_spec n (2 ^ 32)); [|lia].
  done.
Qed.

Section RenderFacts.
Context {F : Type} `{PyFloat F}.
Variable CPU_COUNT : nat.
Variable little_endian : bool.
Variable offset : F.

Lemma decode_addrs_ok attrs w :
  renderable attrs →
  decode_addrs little_endian attrs w =
  (Ok (addr_fields little_endian attrs), w).
Proof.
  intros (Hne & Hip & _). unfold decode_addrs, addr_fields.
  destruct (Z.eqb_spec (l2_proto attrs) 0x0800) as [E|E].
  - destruct (Hip E) as [Hs Hd].
    erewrite bind_ok; [|by apply ntohl_ok].
    erewrite bind_ok; [|by apply ip_address_ok, host32_range].
    erewrite bind_ok; [|by apply ntohl_ok].
    erewrite bind_ok; [|by apply ip_address_ok, host32_range]. done.
  - destruct (Z.eqb_spec (l2_proto attrs) 0x8100); [done|done].
Qed.

Lemma row_fields_ok attrs accms w :
  renderable attrs → (CPU_COUNT ≤ length accms)%nat →
  row_fields CPU_COUNT little_endian offset (attrs, accms) w =
  (Ok (fields_of CPU_COUNT little_endian offset (attrs, accms)), w).
Proof.
  intros Hr Hlen. pose proof Hr as (_ & _ & Hsp & Hdp). unfold row_fields.
  erewrite bind_ok; [|apply merge_accms_ok; simpl; lia]. simpl.
  destruct (merged CPU_COUNT accms) as [[[n_packets n_bytes] st] en] eqn:Ev.
  erewrite bind_ok; [|by apply decode_addrs_ok].
  erewrite bind_ok; [|by apply ntohs_ok].
  erewrite bind_ok; [|by apply ntohs_ok].
  unfold fields_of. simpl. rewrite Ev. done.
Qed.

Lemma compile_row_ok attrs accms w :
  renderable attrs → (CPU_COUNT ≤ length accms)%nat →
  compile_row CPU_COUNT little_endian offset (attrs, accms) w =
  (Ok (row_of CPU_COUNT little_endian offset (attrs, accms)), w).
Proof.
  intros Hr Hlen. unfold compile_row.
  erewrite bind_ok; [|by apply row_fields_ok]. done.
Qed.

(** The sort key of a row is the start time it was printed from. *)
Lemma row_key_format (t : F) (f : string) (fields : list string) :
  row_key (format_row (f_str t :: f :: fields)) = Some t.
Proof.
  unfold row_key, format_row, find_comma.
  change (String.concat comma (f_str t :: f :: fields))
    with (f_str t +:+ comma +:+ String.concat comma (f :: fields)).
  rewrite !append_assoc. rewrite index_comma_app by apply f_str_no_comma.
  unfold slice_to. destruct (Z.ltb_spec (Z.of_nat (String.length (f_str t))) 0);
    [lia|].
  rewrite Nat2Z.id, substring_app_l. apply f_parse_str.
Qed.

Lemma row_key_row_of item :
  row_key (row_of CPU_COUNT little_endian offset item) =
  Some (f_add (f_of_ns (view_start (merged CPU_COUNT item.2))) offset).
Proof. apply row_key_format. Qed.

End RenderFacts.

(** ** Sorting by key *)

Section SortFacts.
Context {F : Type} `{PyFloat F}.

#[local] Instance key_le_trans : Transitive (key_le (F:=F)).
Proof. intros a b c Hab Hbc. unfold key_le in *. by eapply f_leb_trans. Qed.

Lemma insert_keyed_perm (kx : F * string) l : insert_keyed kx l ≡ₚ kx :: l.
Proof.
  induction l as [|ky l IH]; simpl; [done|].
  destruct (f_ltb ky.1 kx.1); [|done]. rewrite IH. apply perm_swap.
Qed.

Lemma sort_keyed_perm (l : list (F * string)) : sort_keyed l ≡ₚ l.
Proof.
  induction l as [|kx l IH]; simpl; [done|].
  unfold sort_keyed in *. simpl. by rewrite insert_keyed_perm, IH.
Qed.

Lemma insert_keyed_sorted (kx : F * string) l :
  Sorted key_le l → Sorted key_le (insert_keyed kx l).
Proof.
  induction 1 as [|ky l Hl IH Hhd]; simpl.
  - by repeat constructor.
  - destruct (f_ltb ky.1 kx.1) eqn:E.
    + constructor; [done|].
      destruct Hhd as [|kz l Hyz]; simpl.
      * constructor. unfold key_le. by apply f_ltb_asym.
      * destruct (f_ltb kz.1 kx.1); constructor; [done|].
        unfold key_le. by apply f_ltb_asym.
    + constructor; [by constructor|]. by constructor.
Qed.

Lemma sort_keyed_sorted (l : list (F * string)) :
  StronglySorted key_le (sort_keyed l).
Proof.
  apply Sorted_StronglySorted; [apply _|].
  induction l as [|kx l IH]; [constructor|].
  by apply insert_keyed_sorted.
Qed.

Lemma sorted_rows_by_key (kl : list (F * string)) :
  Forall (λ p, row_key p.2 = Some p.1) kl →
  StronglySorted key_le kl → StronglySorted by_start_time kl.*2.
Proof.
  intros Hkeys Hs. induction Hs as [|p kl Hs IH Hall]; csimpl; [constructor|].
  apply Forall_cons in Hkeys as [Hp Hkeys]. constructor; [by apply IH|].
  rewrite Forall_fmap. rewrite Forall_forall in Hall, Hkeys.
  apply Forall_forall. intros q Hq. simpl. exists p.1, q.1.
  split; [done|]. split; [by apply Hkeys|]. by apply Hall.
Qed.

(** [sorted] on rows that all have a key: it returns a permutation of
    them in ascending order of the key. *)
Lemma sorted_ok (l : list string) w :
  Forall (λ x, is_Some (row_key x)) l →
  ∃ rows, sorted l w = (Ok rows, w) ∧ rows ≡ₚ l ∧
    StronglySorted by_start_time rows.
Proof.
  intros Hl.
  assert (Hloop : ∀ acc w,
    for_in l acc (λ acc x, let* k := sort_key x in ret (acc ++ [(k, x)])) w =
    (Ok (acc ++ ((λ x, (key_of x, x)) <$> l)), w)).
  { clear w. induction Hl as [|x l [t Hx] Hl IH]; intros acc w; simpl.
    - by rewrite app_nil_r.
    - unfold sort_key at 1, key_of at 1. fold (row_key x). rewrite Hx. simpl.
      erewrite bind_ok; [|reflexivity]. rewrite IH, <- app_assoc. done. }
  eexists. split.
  { unfold sorted. erewrite bind_ok; [|apply Hloop]. reflexivity. }
  simpl. split.
  - rewrite sort_keyed_perm, <- list_fmap_compose. simpl.
    by rewrite list_fmap_id.
  - apply sorted_rows_by_key; [|apply sort_keyed_sorted].
    rewrite sort_keyed_perm. apply Forall_fmap, Forall_forall.
    intros x Hx. simpl. rewrite Forall_forall in Hl.
    destruct (Hl x Hx) as [t Ht]. unfold key_of. by rewrite Ht.
Qed.

End SortFacts.

(** ** The loop over the cache and the writes *)

Lemma write_loop_ok (rows : list string) w :
  for_in rows tt (λ _ entry, f_write entry) w =
  (Ok tt, mkWorld (flows w) (cache w) (trace w) (written w ++ rows)).
Proof.
  revert w. induction rows as [|r rows IH]; intros w; simpl.
  - unfold ret. rewrite app_nil_r. by destruct w.
  - erewrite bind_ok; [|reflexivity]. rewrite IH. simpl.
    by rewrite <- app_assoc.
Qed.

Section CompileFacts.
Context {F : Type} `{PyFloat F}.
Variable CPU_COUNT : nat.
Variable little_endian : bool.
Variable offset : F.

Local Abbreviation row := (row_of CPU_COUNT little_endian offset).

Lemma renders_renderable attrs accms :
  renderable attrs → (CPU_COUNT ≤ length accms)%nat → renders CPU_COUNT little_endian offset (attrs, accms).
Proof. intros Hr Hlen w. by apply compile_row_ok. Qed.

Lemma foldl_add_rows (items : list (FlowKey * list Accm)) (S0 : gset string) :
  foldl (λ flow_set item, {[row item]} ∪ flow_set) S0 items =
  list_to_set (row <$> items) ∪ S0.
Proof.
  revert S0. induction items as [|item items IH]; intros S0; simpl.
  - by rewrite (left_id_L ∅ (∪)).
  - rewrite IH. by rewrite (assoc_L (∪)), (comm_L (∪) _ {[row item]}).
Qed.

Lemma compile_loop_ok (items : list (FlowKey * list Accm)) w :
  Forall (renders CPU_COUNT little_endian offset) items →
  for_in items (∅ : gset string) (λ flow_set item,
    let* r := compile_row CPU_COUNT little_endian offset item in
    ret ({[r]} ∪ flow_set)) w =
  (Ok (list_to_set (row <$> items)), w).
Proof.
  intros Hall.
  rewrite (for_in_pure (renders CPU_COUNT little_endian offset)
             (λ (flow_set : gset string) item, {[row item]} ∪ flow_set));
    [| |done].
  - rewrite foldl_add_rows. by rewrite (right_id_L ∅ (∪)).
  - intros acc item w' Hitem. by erewrite bind_ok; [|apply Hitem].
Qed.

Lemma compile_rows_ok w :
  Forall (renders CPU_COUNT little_endian offset) (map_to_list (cache w)) →
  compile_rows CPU_COUNT little_endian offset true w =
  (Ok (list_to_set (row <$> map_to_list (cache w))), w).
Proof.
  intros Hall. unfold compile_rows.
  erewrite bind_ok; [|reflexivity]. erewrite bind_ok; [|reflexivity].
  by apply compile_loop_ok.
Qed.

Lemma renders_cache w :
  sized CPU_COUNT (cache w) →
  map_Forall (λ k _, renderable k) (cache w) →
  Forall (renders CPU_COUNT little_endian offset) (map_to_list (cache w)).
Proof.
  intros Hsz Hr. apply Forall_forall. intros [k v] Hkv.
  apply elem_of_map_to_list in Hkv.
  apply renders_renderable; [by eapply Hr|].
  apply Nat.eq_le_incl. symmetry. by eapply Hsz.
Qed.

End CompileFacts.

(** ** When a row is rendered at all *)

Lemma for_in_seq_getidx_short {B} (step : B → Accm → B) (accms : list Accm) n :
  ∀ i acc w, (i ≤ length accms < i + n)%nat →
  for_in (seq i n) acc
    (λ acc j, let* a := getidx accms j in ret (step acc a)) w =
  (Raise IndexError, w).
Proof.
  induction n as [|n IH]; intros i acc w Hlen; [lia|]. simpl.
  destruct (accms !! i) as [a|] eqn:Ha.
  - erewrite bind_ok; [|erewrite bind_ok; [|by apply getidx_Some]; done].
    apply IH. apply lookup_lt_Some in Ha. lia.
  - erewrite bind_raise; [done|].
    erewrite bind_raise; [done|by apply getidx_None].
Qed.

Lemma merge_accms_short CPU_COUNT accms w :
  (length accms < CPU_COUNT)%nat →
  merge_accms CPU_COUNT accms w = (Raise IndexError, w).
Proof.
  intros Hlen. unfold merge_accms, range.
  apply for_in_seq_getidx_short. lia.
Qed.

Lemma ntohl_inv le x w y w' :
  ntohl le x w = (Ok y, w') → 0 ≤ x < 2 ^ 32.
Proof.
  unfold ntohl. destruct (Z.leb_spec 0 x), (Z.ltb_spec x (2 ^ 32)); simpl;
    try discriminate. lia.
Qed.

Lemma ntohs_inv le x w y w' :
  ntohs le x w = (Ok y, w') → 0 ≤ x < 2 ^ 16.
Proof.
  unfold ntohs. destruct (Z.leb_spec 0 x), (Z.ltb_spec x (2 ^ 16)); simpl;
    try discriminate. lia.
Qed.

Lemma bind_ok_inv {A B} (c : M A) (k : A → M B) w b w' :
  bind c k w = (Ok b, w') → ∃ a w1, c w = (Ok a, w1) ∧ k a w1 = (Ok b, w').
Proof.
  unfold bind. destruct (c w) as [[a|e] w1]; [eauto|discriminate].
Qed.

Section Inversion.
Context {F : Type} `{PyFloat F}.
Variable CPU_COUNT : nat.
Variable little_endian : bool.
Variable offset : F.

Lemma decode_addrs_inv attrs w ips w' :
  decode_addrs little_endian attrs w = (Ok ips, w') →
  l2_proto attrs ≠ 0x8100 ∧
  (l2_proto attrs = 0x0800 →
   (0 ≤ src_ip attrs < 2 ^ 32) ∧ (0 ≤ dst_ip attrs < 2 ^ 32)).
Proof.
  unfold decode_addrs.
  destruct (Z.eqb_spec (l2_proto attrs) 0x0800) as [E|E].
  - intros Hd. split; [lia|]. intros _.
    apply bind_ok_inv in Hd as (s & w1 & Hs & Hd).
    apply bind_ok_inv in Hd as (src & w2 & _ & Hd).
    apply bind_ok_inv in Hd as (d & w3 & Hdd & _).
    split; [by eapply ntohl_inv|by eapply ntohl_inv].
  - destruct (Z.eqb_spec (l2_proto attrs) 0x8100) as [E'|E']; [done|].
    intros _. split; [done|]. by intros.
Qed.

(** A row is rendered exactly for the renderable keys with an array of
    at least [CPU_COUNT] slots. *)
Lemma compile_row_inv attrs accms w r w' :
  compile_row CPU_COUNT little_endian offset (attrs, accms) w = (Ok r, w') →
  renderable attrs ∧ (CPU_COUNT ≤ length accms)%nat.
Proof.
  intros Hrow. unfold compile_row in Hrow.
  apply bind_ok_inv in Hrow as (fields & w1 & Hf & _).
  unfold row_fields in Hf. apply bind_ok_inv in Hf as (v & w2 & Hm & Hf).
  destruct (decide (CPU_COUNT ≤ length accms)%nat) as [Hlen|Hlen].
  - split; [|done]. destruct v as [[[n_packets n_bytes] st] en].
    apply bind_ok_inv in Hf as (ips & w3 & Hips & Hf).
    apply bind_ok_inv in Hf as (sp & w4 & Hsp & Hf).
    apply bind_ok_inv in Hf as (dp & w5 & Hdp & _).
    apply decode_addrs_inv in Hips as [? ?].
    apply ntohs_inv in Hsp. apply ntohs_inv in Hdp. done.
  - simpl in Hm. rewrite merge_accms_short in Hm by lia. discriminate.
Qed.

Lemma compile_row_renders item w r w' :
  compile_row CPU_COUNT little_endian offset item w = (Ok r, w') →
  renders CPU_COUNT little_endian offset item.
Proof.
  destruct item as [attrs accms]. intros Hrow.
  apply compile_row_inv in Hrow as [? ?]. by apply renders_renderable.
Qed.

Lemma compile_loop_inv (items : list (FlowKey * list Accm)) :
  ∀ (S0 : gset string) w S w',
  for_in items S0 (λ flow_set item,
    let* r := compile_row CPU_COUNT little_endian offset item in
    ret ({[r]} ∪ flow_set)) w = (Ok S, w') →
  Forall (renders CPU_COUNT little_endian offset) items.
Proof.
  induction items as [|item items IH]; intros S0 w S w' Hloop; [constructor|].
  simpl in Hloop. apply bind_ok_inv in Hloop as (S1 & w1 & Hbody & Hloop).
  apply bind_ok_inv in Hbody as (r & w2 & Hrow & _).
  constructor; [by eapply compile_row_renders|by eapply IH].
Qed.

Lemma compile_rows_inv w S w' :
  compile_rows CPU_COUNT little_endian offset true w = (Ok S, w') →
  Forall (renders CPU_COUNT little_endian offset) (map_to_list (cache w)).
Proof.
  unfold compile_rows. intros Hc.
  apply bind_ok_inv in Hc as (? & w1 & [= _ <-] & Hc).
  apply bind_ok_inv in Hc as (items & w2 & [= <- <-] & Hc).
  by eapply compile_loop_inv.
Qed.

End Inversion.

(** ** Splitting a row at its commas *)

Lemma comma_free_app a b : comma_free a → comma_free b → comma_free (a +:+ b).
Proof. apply all_chars_app. Qed.

Lemma comma_free_index s : index 0 comma s = None → comma_free s.
Proof.
  induction s as [|c s IH]; [done|]. rewrite index_comma_cons.
  destruct (Ascii.eqb_spec c ","); [done|].
  destruct (index 0 comma s); [done|]. intros _. split; [done|by apply IH].
Qed.

Lemma comma_free_str_int n : comma_free (str_int n).
Proof.
  eapply all_chars_impl; [|apply plain_str_int]. by intros c [? _].
Qed.

Lemma comma_free_hex_uint d :
  comma_free (HexadecimalString.NilEmpty.string_of_uint d).
Proof. induction d; simpl; repeat split; auto; discriminate. Qed.

Lemma comma_free_py_hex n : comma_free (py_hex n).
Proof.
  assert (Hd : ∀ m, comma_free (hex_digits m)).
  { intros m. unfold hex_digits, HexadecimalString.NilZero.string_of_uint.
    destruct (N.to_hex_uint (Z.to_N m)); try apply comma_free_hex_uint.
    simpl. repeat split; discriminate. }
  unfold py_hex. destruct (n <? 0); apply comma_free_app; try apply Hd;
    simpl; repeat split; discriminate.
Qed.

Lemma comma_free_dot : comma_free ".".
Proof. simpl. repeat split; discriminate. Qed.

Lemma comma_free_dotted_quad n : comma_free (dotted_quad n).
Proof.
  unfold dotted_quad.
  repeat (apply comma_free_app;
          [first [apply comma_free_str_int|apply comma_free_dot]|]).
  apply comma_free_str_int.
Qed.

Lemma split_at_comma_free s : comma_free s → split_at "," s = [s].
Proof.
  induction s as [|c s IH]; [done|]. intros [Hc Hs]. simpl.
  destruct (Ascii.eqb_spec c ","); [done|]. by rewrite IH.
Qed.

Lemma split_at_app a b :
  comma_free a → split_at "," (a +:+ comma +:+ b) = a :: split_at "," b.
Proof.
  induction a as [|c a IH]; intros Ha.
  - done.
  - destruct Ha as [Hc Ha].
    change (String c a +:+ comma +:+ b) with (String c (a +:+ comma +:+ b)).
    simpl. destruct (Ascii.eqb_spec c ","); [done|]. by rewrite IH.
Qed.

Lemma split_at_concat (fields : list string) :
  fields ≠ [] → Forall comma_free fields →
  split_at "," (String.concat comma fields) = fields.
Proof.
  induction fields as [|f fields IH]; [done|]. intros _ Hall.
  apply Forall_cons in Hall as [Hf Hall]. destruct fields as [|g fields].
  - simpl. by apply split_at_comma_free.
  - change (String.concat comma (f :: g :: fields))
      with (f +:+ comma +:+ String.concat comma (g :: fields)).
    rewrite split_at_app by done. by rewrite IH.
Qed.

Lemma fields_of_split {F : Type} `{PyFloat F} (CPU_COUNT : nat)
    (little_endian : bool) (offset : F) (item : FlowKey * list Accm) :
  split_at "," (String.concat comma
                  (fields_of CPU_COUNT little_endian offset item)) =
  fields_of CPU_COUNT little_endian offset item.
Proof.
  apply split_at_concat; [done|]. unfold fields_of.
  repeat constructor;
    try apply comma_free_str_int; try apply comma_free_py_hex;
    try (apply comma_free_index, f_str_no_comma).
  - unfold addr_fields. destruct (_ =? _); [apply comma_free_dotted_quad|done].
  - unfold addr_fields. destruct (_ =? _); [apply comma_free_dotted_quad|done].
Qed.

(** ** The report: rows, order, header *)

Lemma merged_counts CPU_COUNT accms :
  length accms = CPU_COUNT →
  view_packets (merged CPU_COUNT accms) = Zsum (packets <$> accms) ∧
  view_bytes (merged CPU_COUNT accms) = Zsum (bytes <$> accms).
Proof.
  intros <-. unfold merged. rewrite firstn_all.
  destruct (merge_step_counts accms (0, 0, -1, -1)) as [-> ->].
  by unfold view_packets, view_bytes.
Qed.

Section ReportClaims.
Context {F : Type} `{PyFloat F}.
Variable CPU_COUNT : nat.
Variable little_endian : bool.
Variable offset : F.

Local Abbreviation row := (row_of CPU_COUNT little_endian offset).

(** C7: on a cache whose bindings all render, the report writes the
    fixed header line and then the rows; the rows are the distinct
    texts the bindings render to, each once (bindings with the same
    text share one row), in ascending order of the number read from the
    text before the first comma. *)
Theorem report_dedups_sorts_and_heads (s : Schedule F) (w : World) :
  open_ok s = true →
  sized CPU_COUNT (cache w) →
  map_Forall (λ k _, renderable k) (cache w) →
  ∃ rows w',
    report CPU_COUNT little_endian offset s w = (Ok tt, w') ∧
    written w' =
      written w ++
      ("START, END, SRC IP, DST IP, SRC PORT, DST PORT, ETHER TYPE, PROTO, #PACKETS, #BYTES"
       +:+ String "010" EmptyString) :: rows ∧
    NoDup rows ∧
    (∀ r, r ∈ rows ↔
       (∃ k v, cache w !! k = Some v ∧
          compile_row CPU_COUNT little_endian offset (k, v) w = (Ok r, w))) ∧
    StronglySorted by_start_time rows.
Proof.
  intros Hopen Hsz Hrend.
  pose proof (renders_cache CPU_COUNT little_endian offset w Hsz Hrend) as Hall.
  set (flow_set := list_to_set (row <$> map_to_list (cache w)) : gset string).
  set (w1 := mkWorld (flows w) (cache w) (trace w ++ [EvRemoveXdp]) (written w)).
  assert (Hmem : ∀ r, r ∈ elements flow_set ↔
            ∃ k v, cache w !! k = Some v ∧ r = row (k, v)).
  { intros r. rewrite elem_of_elements. unfold flow_set.
    rewrite elem_of_list_to_set, list_elem_of_fmap. split.
    - intros ([k v] & -> & Hin). exists k, v.
      by apply elem_of_map_to_list in Hin.
    - intros (k & v & Hkv & ->). exists (k, v).
      split; [done|by apply elem_of_map_to_list]. }
  destruct (sorted_ok (elements flow_set) w1) as (rows & Hsorted & Hperm & Hord).
  { apply Forall_forall. intros r Hr. apply Hmem in Hr as (k & v & _ & ->).
    rewrite row_key_row_of. eauto. }
  exists rows. eexists. split; [|split; [|split; [|split]]].
  - unfold report. rewrite Hopen.
    erewrite bind_ok.
    2:{ unfold try_finally. rewrite compile_rows_ok by done. reflexivity. }
    fold flow_set w1. erewrite bind_ok; [|exact Hsorted].
    erewrite bind_ok; [|reflexivity]. apply write_loop_ok.
  - simpl. by rewrite <- app_assoc.
  - rewrite Hperm. apply NoDup_elements.
  - intros r. rewrite Hperm, Hmem. split.
    + intros (k & v & Hkv & ->). exists k, v. split; [done|].
      rewrite Forall_forall in Hall. apply (Hall (k, v)).
      by apply elem_of_map_to_list.
    + intros (k & v & Hkv & Hrow). exists k, v. split; [done|].
      rewrite Forall_forall in Hall.
      rewrite (Hall (k, v)) in Hrow by by apply elem_of_map_to_list.
      congruence.
  - done.
Qed.


(** C9: the row of a binding is a line ended by a newline; split at
    its commas the line has ten fields, and the last two, read as
    decimal integers, are the sums of [packets] and of [bytes] over all
    the shards of the binding. *)
Theorem row_totals_are_shard_sums (attrs : FlowKey) (accms : list Accm)
    (w : World) :
  renderable attrs →
  length accms = CPU_COUNT →
  ∃ line n_packets n_bytes,
    compile_row CPU_COUNT little_endian offset (attrs, accms) w =
      (Ok (line +:+ String "010" EmptyString), w) ∧
    length (split_at "," line) = 10%nat ∧
    split_at "," line !! 8%nat = Some n_packets ∧
    split_at "," line !! 9%nat = Some n_bytes ∧
    int_of_str n_packets = Some (Zsum (packets <$> accms)) ∧
    int_of_str n_bytes = Some (Zsum (bytes <$> accms)).
Proof.
  intros Hr Hlen.
  exists (String.concat comma
            (fields_of CPU_COUNT little_endian offset (attrs, accms))).
  rewrite fields_of_split. eexists _, _.
  split; [apply compile_row_ok; [done|lia]|].
  split; [done|]. split; [done|]. split; [done|]. simpl.
  destruct (merged_counts CPU_COUNT accms Hlen) as [<- <-].
  split; apply int_of_str_int_Z.
Qed.

End ReportClaims.

Lemma renderable_key_a : renderable key_a.
Proof. unfold renderable, key_a. simpl. lia. Qed.

Lemma renderable_key_b : renderable key_b.
Proof. unfold renderable, key_b. simpl. lia. Qed.

Lemma renderable_key_c : renderable key_c.
Proof. unfold renderable, key_c. simpl. lia. Qed.

Lemma sized_cached_bc : sized 1 (cache cached_bc).
Proof.
  apply map_Forall_insert_2; [reflexivity|].
  apply map_Forall_singleton. reflexivity.
Qed.

Lemma renderable_cached_bc :
  map_Forall (λ k _, renderable k) (cache cached_bc).
Proof.
  apply map_Forall_insert_2; [apply renderable_key_b|].
  apply map_Forall_singleton, renderable_key_c.
Qed.

Lemma sized_cached_three : sized 1 (cache cached_three).
Proof.
  repeat (apply map_Forall_insert_2; [reflexivity|]).
  apply map_Forall_empty.
Qed.

Lemma renderable_cached_three :
  map_Forall (λ k _, renderable k) (cache cached_three).
Proof.
  apply map_Forall_insert_2; [apply renderable_key_a|].
  apply map_Forall_insert_2; [apply renderable_key_b|].
  apply map_Forall_singleton, renderable_key_c.
Qed.

Lemma report_dedups_sorts_and_heads_witness :
  ∃ rows w',
    report 1 true (0 : Z) quiet_run cached_three = (Ok tt, w') ∧
    written w' =
      written cached_three ++
      ("START, END, SRC IP, DST IP, SRC PORT, DST PORT, ETHER TYPE, PROTO, #PACKETS, #BYTES"
       +:+ String "010" EmptyString) :: rows ∧
    NoDup rows ∧
    (∀ r, r ∈ rows ↔
       (∃ k v, cache cached_three !! k = Some v ∧
          compile_row 1 true (0 : Z) (k, v) cached_three =
            (Ok r, cached_three))) ∧
    StronglySorted by_start_time rows.
Proof.
  apply report_dedups_sorts_and_heads;
    [reflexivity|apply sized_cached_three|apply renderable_cached_three].
Defined.

(** The file of that report: the flows first seen at 12.5 s, 3.1 s and
    7.0 s are written in the order 3.1, 7.0, 12.5, which is the order
    of the numbers and not of their texts. *)
Example report_of_three_flows :
  written (report 1 true (0 : Z) quiet_run cached_three).2 =
  [String.append
     "START, END, SRC IP, DST IP, SRC PORT, DST PORT, ETHER TYPE, PROTO, #PACKETS, #BYTES"
     (String "010" EmptyString);
   format_row ["3100000000e-9"; "4000000000e-9"; EmptyString; EmptyString;
               "53"; "53"; "0x86dd"; "17"; "2"; "120"];
   format_row ["7000000000e-9"; "8000000000e-9"; EmptyString; EmptyString;
               "53"; "53"; "0x86dd"; "17"; "3"; "180"];
   format_row ["12500000000e-9"; "13000000000e-9"; "192.168.0.1"; "10.0.0.1";
               "80"; "443"; "0x800"; "6"; "1"; "60"]].
Proof. vm_compute. reflexivity. Qed.

(** Two distinct flows, one row: [key_b] and [key_c] differ in the
    source address, which an undecoded ethertype leaves out of the
    text. *)
Example identical_rows_collapse :
  key_b ≠ key_c ∧
  written (report 1 true (0 : Z) quiet_run cached_bc).2 =
  [header;
   format_row ["99000000000e-9"; "100000000000e-9"; EmptyString; EmptyString;
               "53"; "53"; "0x86dd"; "17"; "1"; "60"]].
Proof. split; [discriminate|]. vm_compute. reflexivity. Qed.


Lemma row_totals_are_shard_sums_witness :
  ∃ line n_packets n_bytes,
    compile_row 2 true (0 : Z) (key_a, two_shards) empty_world =
      (Ok (line +:+ String "010" EmptyString), empty_world) ∧
    length (split_at "," line) = 10%nat ∧
    split_at "," line !! 8%nat = Some n_packets ∧
    split_at "," line !! 9%nat = Some n_bytes ∧
    int_of_str n_packets = Some (Zsum (packets <$> two_shards)) ∧
    int_of_str n_bytes = Some (Zsum (bytes <$> two_shards)).
Proof.
  apply row_totals_are_shard_sums; [apply renderable_key_a|reflexivity].
Defined.

(** The row of that binding, and its totals read back from the text. *)
Example row_of_two_shards :
  (compile_row 2 true (0 : Z) (key_a, two_shards) empty_world).1 =
    Ok (String.append "0e-9,9e-9,192.168.0.1,10.0.0.1,80,443,0x800,6,3,180"
          (String "010" EmptyString)) ∧
  int_of_str <$>
    split_at "," "0e-9,9e-9,192.168.0.1,10.0.0.1,80,443,0x800,6,3,180"
      !! 8%nat = Some (Some 3) ∧
  Zsum (packets <$> two_shards) = 3 ∧ Zsum (bytes <$> two_shards) = 180.
Proof. vm_compute. repeat split. Qed.

(** * Further properties of the engine *)

(** ** The sweep *)

Lemma recent_stamp_of_short CPU_COUNT accms w :
  (length accms < CPU_COUNT)%nat →
  recent_stamp_of CPU_COUNT accms w = (Raise IndexError, w).
Proof.
  intros Hlen. unfold recent_stamp_of, range.
  apply for_in_seq_getidx_short. lia.
Qed.

Section MoreSweep.
Context {F : Type} `{PyFloat F}.
Variable CPU_COUNT : nat.
Variables (offset : F) (agg_time : Z) (now : F).

Lemma sweep_swept w :
  sized CPU_COUNT (flows w) →
  _sweep_flows CPU_COUNT offset agg_time now w =
  (Ok tt, swept offset agg_time now w).
Proof. apply sweep_ok. Qed.

Lemma olds_nil w :
  (∀ k v, flows w !! k = Some v → is_old offset agg_time now v = false) →
  olds offset agg_time now w = [].
Proof.
  intros Hno. destruct (olds offset agg_time now w) as [|[k v] l] eqn:E; [done|].
  assert (Hin : (k, v) ∈ olds offset agg_time now w) by (rewrite E; left).
  apply elem_of_olds in Hin as [Hk Ho]. rewrite (Hno _ _ Hk) in Ho. done.
Qed.

Lemma swept_nothing w :
  (∀ k v, flows w !! k = Some v → is_old offset agg_time now v = false) →
  swept offset agg_time now w = w.
Proof.
  intros Hno. unfold swept. rewrite (olds_nil w Hno). simpl.
  rewrite app_nil_r. by destruct w.
Qed.

Lemma swept_no_old w k v :
  flows (swept offset agg_time now w) !! k = Some v →
  is_old offset agg_time now v = false.
Proof.
  simpl. rewrite sweep_flows_lookup. destruct (flows w !! k) as [v'|]; [|done].
  destruct (is_old offset agg_time now v') eqn:E; [done|]. by intros [= <-].
Qed.

(** A sweep that finds no flow over the threshold, in particular a
    sweep of an empty live table, leaves both tables as they are and
    does nothing to the outside. *)
Theorem sweep_without_old_flows (w : World) :
  sized CPU_COUNT (flows w) →
  (∀ k accms, flows w !! k = Some accms →
     exceeds (idle_time offset now (latest_end accms)) agg_time = false) →
  _sweep_flows CPU_COUNT offset agg_time now w = (Ok tt, w).
Proof.
  intros Hsz Hno. rewrite sweep_swept by done. f_equal.
  apply swept_nothing. intros k v Hk. apply (Hno _ _ Hk).
Qed.

(** Sweeping again at the same clock reading moves nothing more. *)
Theorem sweep_twice (w : World) :
  sized CPU_COUNT (flows w) →
  ∃ w', _sweep_flows CPU_COUNT offset agg_time now w = (Ok tt, w') ∧
    _sweep_flows CPU_COUNT offset agg_time now w' = (Ok tt, w').
Proof.
  intros Hsz. exists (swept offset agg_time now w).
  split; [by apply sweep_swept|].
  rewrite sweep_swept by (simpl; by apply sized_del_all). f_equal.
  apply swept_nothing. apply swept_no_old.
Qed.

Lemma scan_loop_short (items : list (FlowKey * list Accm)) k accms :
  (k, accms) ∈ items →
  (length accms < CPU_COUNT)%nat →
  ∀ acc w,
  for_in items acc (λ old_flows item,
    let* recent_stamp := recent_stamp_of CPU_COUNT item.2 in
    if exceeds (idle_time offset now recent_stamp) agg_time
    then ret (old_flows ++ [item.1])
    else ret old_flows) w = (Raise IndexError, w).
Proof.
  intros Hk Hlen. induction items as [|[k' v'] items IH]; intros acc w.
  - by apply elem_of_nil in Hk.
  - simpl. destruct (decide (length v' < CPU_COUNT)%nat) as [Hs|Hs].
    + erewrite bind_raise; [done|].
      erewrite bind_raise; [done|by apply recent_stamp_of_short].
    + apply elem_of_cons in Hk as [[= <- <-]|Hk]; [done|].
      match goal with |- bind ?c _ _ = _ =>
        assert (Hb : ∃ acc', c w = (Ok acc', w)) end.
      { erewrite bind_ok; [|apply recent_stamp_of_ok; simpl; lia].
        simpl. destruct (exceeds _ _); eauto. }
      destruct Hb as [acc' Hb]. erewrite bind_ok; [|exact Hb]. by apply IH.
Qed.

(** When the array of some live flow has fewer slots than there are
    CPUs, the sweep raises [IndexError] in its first loop: no flow is
    moved, not even the old ones with a full array. *)
Theorem sweep_short_array (w : World) (k : FlowKey) (accms : list Accm) :
  flows w !! k = Some accms →
  (length accms < CPU_COUNT)%nat →
  _sweep_flows CPU_COUNT offset agg_time now w = (Raise IndexError, w).
Proof.
  intros Hk Hlen. unfold _sweep_flows. erewrite bind_ok; [|reflexivity].
  erewrite bind_raise; [done|].
  apply elem_of_map_to_list in Hk. by eapply scan_loop_short.
Qed.

(** A sweep keeps the two tables apart: when no key was in both before
    it, none is after it. *)
Theorem sweep_keeps_apart (w : World) :
  sized CPU_COUNT (flows w) →
  apart w →
  ∃ w', _sweep_flows CPU_COUNT offset agg_time now w = (Ok tt, w') ∧ apart w'.
Proof.
  intros Hsz Hap. exists (swept offset agg_time now w).
  split; [by apply sweep_swept|].
  unfold apart in *. apply map_disjoint_spec. intros k x y. simpl.
  rewrite sweep_flows_lookup, sweep_cache_lookup.
  destruct (flows w !! k) as [v|] eqn:E; [|done].
  destruct (is_old offset agg_time now v); [done|].
  intros [= <-] Hc. by eapply map_disjoint_spec.
Qed.

(** A sweep only deletes from the live table and never deletes from the
    cache: the live table it leaves is a part of the one it found, the
    cache keeps all its keys, and a cache entry whose key is not live
    keeps its array. *)
Theorem sweep_only_moves (w : World) :
  sized CPU_COUNT (flows w) →
  ∃ w', _sweep_flows CPU_COUNT offset agg_time now w = (Ok tt, w') ∧
    flows w' ⊆ flows w ∧
    cache_grows w w' ∧
    (∀ k, flows w !! k = None → cache w' !! k = cache w !! k).
Proof.
  intros Hsz. exists (swept offset agg_time now w).
  split; [by apply sweep_swept|]. split; [|split].
  - apply map_subseteq_spec. intros k v. simpl. rewrite sweep_flows_lookup.
    destruct (flows w !! k) as [v'|]; [|done].
    by destruct (is_old offset agg_time now v').
  - intros k Hk. simpl. rewrite sweep_cache_lookup.
    destruct (flows w !! k) as [v'|]; [|done].
    destruct (is_old offset agg_time now v'); eauto.
  - intros k Hk. simpl. by rewrite sweep_cache_lookup, Hk.
Qed.

End MoreSweep.

(** ** Arrays longer than the CPU count, and flows seen again *)

Section MoreMerge.
Context {F : Type} `{PyFloat F}.
Variable CPU_COUNT : nat.

(** Both merge loops read the first [CPU_COUNT] slots only: what an
    array holds beyond them changes neither the totals and stamps of
    the report nor the stamp the sweep decides on. *)
Theorem slots_beyond_cpu_count_ignored (accms extra : list Accm) (w : World) :
  length accms = CPU_COUNT →
  merge_accms CPU_COUNT (accms ++ extra) w = merge_accms CPU_COUNT accms w ∧
  recent_stamp_of CPU_COUNT (accms ++ extra) w =
    recent_stamp_of CPU_COUNT accms w.
Proof.
  intros Hlen. split.
  - rewrite !merge_accms_ok by (rewrite ?length_app; lia).
    unfold merged. by rewrite <- Hlen, take_app_length, firstn_all.
  - rewrite !recent_stamp_of_ok by (rewrite ?length_app; lia).
    by rewrite <- Hlen, take_app_length, firstn_all.
Qed.

(** A flow that is swept, then seen again by the classifier and swept
    again leaves only its second array in the cache: the counters of
    its first stay are replaced, not added to. *)
Theorem reswept_flow_keeps_last_array (offset : F) (agg_time : Z)
    (now1 now2 : F) (w : World) (k : FlowKey) (v1 v2 : list Accm) :
  sized CPU_COUNT (flows w) →
  flows w !! k = Some v1 →
  exceeds (idle_time offset now1 (latest_end v1)) agg_time = true →
  length v2 = CPU_COUNT →
  exceeds (idle_time offset now2 (latest_end v2)) agg_time = true →
  ∃ w1 w2,
    _sweep_flows CPU_COUNT offset agg_time now1 w = (Ok tt, w1) ∧
    cache w1 !! k = Some v1 ∧
    (classifier [(k, v2)] ;;
     _sweep_flows CPU_COUNT offset agg_time now2) w1 = (Ok tt, w2) ∧
    cache w2 !! k = Some v2 ∧
    flows w2 !! k = None.
Proof.
  intros Hsz Hk Ho1 Hlen Ho2.
  set (w1 := swept offset agg_time now1 w).
  set (w1' := classified [(k, v2)] w1).
  assert (Hsz1 : sized CPU_COUNT (flows w1')).
  { apply (sized_put_all CPU_COUNT _ [(k, v2)]);
      [by apply sized_del_all|by repeat constructor]. }
  assert (Hk1 : flows w1' !! k = Some v2) by apply lookup_insert_eq.
  exists w1, (swept offset agg_time now2 w1').
  split; [by apply sweep_ok|]. split; [|split; [|split]].
  - unfold w1. simpl. rewrite sweep_cache_lookup, Hk.
    unfold exceeds, idle_time in Ho1. unfold is_old. by rewrite Ho1.
  - erewrite bind_ok; [|reflexivity]. by apply sweep_ok.
  - simpl. rewrite (sweep_cache_lookup offset agg_time now2 w1'), Hk1.
    unfold exceeds, idle_time in Ho2. unfold is_old. by rewrite Ho2.
  - simpl. rewrite (sweep_flows_lookup offset agg_time now2 w1'), Hk1.
    unfold exceeds, idle_time in Ho2. unfold is_old. by rewrite Ho2.
Qed.

(** When Ctrl-C does not reach it, the drain leaves the cache up to
    date with the live table: every flow still live has in the cache
    the very array it has in the live table. *)
Theorem drain_copies_live_arrays (offset : F) (s : Schedule F) (w : World) :
  drain_interrupt s = None →
  sized CPU_COUNT (flows w) →
  sized_writes CPU_COUNT (drain_arrivals s) →
  ∃ w', drain CPU_COUNT offset s w = (Ok tt, w') ∧
    ∀ k v, flows w' !! k = Some v → cache w' !! k = Some v.
Proof.
  intros Hint Hsz Hdr.
  set (w1 := classified (drain_arrivals s) w).
  assert (Hsz1 : sized CPU_COUNT (flows w1)) by by apply sized_put_all.
  set (w2 := swept offset 0 (drain_now s) w1).
  set (w3 := classified (late_arrivals s) w2).
  exists (transferred w3). split.
  - unfold drain. rewrite Hint. erewrite bind_ok; [|reflexivity].
    erewrite bind_ok; [|by apply (sweep_ok CPU_COUNT offset 0 _ w1)].
    erewrite bind_ok; [|reflexivity]. apply transfer_flows_ok.
  - intros k v Hk. simpl in *.
    rewrite transfer_cache_lookup. by rewrite Hk.
Qed.

End MoreMerge.

(** ** What a run keeps, however it ends *)

Section EngineKeeps.
Context {F : Type} `{PyFloat F}.
Variable CPU_COUNT : nat.
Variables (offset : F) (agg_time : Z).

(** [R] relates a world to a later one, [Pw] holds of the writes of the
    classifier; every call, write and table operation keeps [R]. *)
Variable R : World → World → Prop.
Context `{!PreOrder R}.
Variable Pw : list (FlowKey * list Accm) → Prop.
Hypothesis R_emit : ∀ w e, R w (emitted e w).
Hypothesis R_classifier : ∀ w writes, Pw writes → R w (classified writes w).
Hypothesis R_step : ∀ w w', table_step w w' → R w w'.

Lemma R_steps w w' : table_steps w w' → R w w'.
Proof. by apply table_steps_keep. Qed.

Lemma sleep_keeps (secs : Z) (t : Tick F) w :
  Pw (arrivals t) → ∀ r w', sleep secs t w = (r, w') →
  R w w' ∧ (w' = w ∨ w' = classified (arrivals t) w).
Proof.
  intros HP r w'. unfold sleep. destruct (secs <? 0).
  - intros [= <- <-]. split; [reflexivity|by left].
  - unfold bind, classifier. fold (put_all (flows w) (arrivals t)).
    fold (classified (arrivals t) w).
    destruct (interrupt t) as [[|n]|]; intros [= <- <-];
      (split; [by apply R_classifier|by right]).
Qed.

Lemma collect_keeps ts w :
  sized CPU_COUNT (flows w) →
  Forall (λ t, sized_writes CPU_COUNT (arrivals t)) ts →
  Forall (λ t, Pw (arrivals t)) ts →
  ∀ r w', collect CPU_COUNT offset agg_time ts w = (r, w') →
  R w w' ∧ sized CPU_COUNT (flows w').
Proof.
  revert w. induction ts as [|t ts IH]; intros w Hsz Hts HP r w'; simpl.
  - intros [= <- <-]. done.
  - apply Forall_cons in Hts as [Ht Hts]. apply Forall_cons in HP as [HPt HP].
    unfold bind at 1.
    destruct (sleep agg_time t w) as [[[]|e] w1] eqn:Esleep.
    2:{ intros [= <- <-].
        destruct (sleep_keeps agg_time t w HPt _ _ Esleep) as [HR1 [->| ->]];
          [done|]. split; [done|by apply sized_put_all]. }
    destruct (sleep_keeps agg_time t w HPt _ _ Esleep) as [HR1 Hw1].
    assert (Hsz1 : sized CPU_COUNT (flows w1)).
    { destruct Hw1 as [->| ->]; [done|by apply sized_put_all]. }
    destruct (sweep_tick_steps CPU_COUNT offset agg_time t w1 Hsz1)
      as (w2 & Hsw & Hsteps).
    destruct (table_steps_carry CPU_COUNT _ _ Hsteps) as (Hs2 & _ & _).
    assert (HR2 : R w w2).
    { transitivity w1; [done|by apply R_steps]. }
    unfold bind at 1. rewrite Hsw.
    destruct (interrupt t) as [[|n]|].
    + intros Hrun. destruct (IH w2 (Hs2 Hsz1) Hts HP _ _ Hrun) as [HR3 Hs3].
      split; [by transitivity w2|done].
    + intros [= <- <-]. auto.
    + intros Hrun. destruct (IH w2 (Hs2 Hsz1) Hts HP _ _ Hrun) as [HR3 Hs3].
      split; [by transitivity w2|done].
Qed.

Lemma collecting_keeps (s : Schedule F) w :
  sized CPU_COUNT (flows w) →
  Forall (λ t, sized_writes CPU_COUNT (arrivals t)) (ticks s) →
  Forall (λ t, Pw (arrivals t)) (ticks s) →
  ∀ r w', collecting CPU_COUNT offset agg_time s w = (r, w') →
  R w w' ∧ sized CPU_COUNT (flows w').
Proof.
  intros Hsz Hts HP r w'. unfold collecting, try_except.
  destruct (collect CPU_COUNT offset agg_time (ticks s) w)
    as [[[]|e] wc] eqn:Ec;
    destruct (collect_keeps _ _ Hsz Hts HP _ _ Ec) as [HRc Hsc].
  - by intros [= <- <-].
  - destruct (is_KeyboardInterrupt e).
    + intros [= <- <-]. split; [|done]. transitivity wc; [done|apply R_emit].
    + by intros [= <- <-].
Qed.

Lemma drain_keeps (s : Schedule F) w :
  sized CPU_COUNT (flows w) →
  sized_writes CPU_COUNT (drain_arrivals s) →
  Pw (drain_arrivals s) → Pw (late_arrivals s) →
  ∀ r w', drain CPU_COUNT offset s w = (r, w') → R w w'.
Proof.
  intros Hsz Hdr HPd HPl r w'.
  set (w1 := classified (drain_arrivals s) w).
  assert (Hsz1 : sized CPU_COUNT (flows w1)) by by apply sized_put_all.
  assert (HR1 : R w w1) by by apply R_classifier.
  set (w2 := swept offset 0 (drain_now s) w1).
  assert (HR2 : R w1 w2) by by apply R_steps, (sweep_steps CPU_COUNT).
  set (w3 := classified (late_arrivals s) w2).
  assert (HR3 : R w2 w3) by by apply R_classifier.
  unfold drain. erewrite bind_ok; [|apply classifier_ok]. fold w1.
  destruct (drain_interrupt s) as [[n|n]|].
  - destruct (sweep_until_steps CPU_COUNT offset 0 n (drain_now s) w1 Hsz1)
      as (w2' & Hsw' & Hsteps).
    erewrite bind_raise; [|exact Hsw']. intros [= <- <-].
    transitivity w1; [done|by apply R_steps].
  - erewrite bind_ok; [|by apply (sweep_swept CPU_COUNT offset 0 _ w1)].
    erewrite bind_ok; [|apply classifier_ok]. fold w2 w3.
    destruct (transfer_until_steps n w3) as (w4 & Htr & Hsteps).
    rewrite Htr. intros [= <- <-].
    transitivity w1; [done|]. transitivity w2; [done|].
    transitivity w3; [done|by apply R_steps].
  - erewrite bind_ok; [|by apply (sweep_swept CPU_COUNT offset 0 _ w1)].
    erewrite bind_ok; [|apply classifier_ok]. fold w2 w3.
    rewrite transfer_flows_ok. intros [= <- <-].
    transitivity w1; [done|]. transitivity w2; [done|].
    transitivity w3; [done|]. apply R_steps, transfer_steps.
Qed.

(** The run up to the end of the drain keeps [R], whatever its
    outcome. *)
Lemma engine_keeps (s : Schedule F) w :
  sized CPU_COUNT (flows w) →
  sized_schedule CPU_COUNT s →
  Forall (λ t, Pw (arrivals t)) (ticks s) →
  Pw (drain_arrivals s) → Pw (late_arrivals s) →
  ∃ r w',
    collect_and_drain CPU_COUNT offset agg_time s w = (r, w') ∧ R w w'.
Proof.
  intros Hsz (Hts & Hdr & Hla) HPt HPd HPl.
  set (w0 := emitted EvAttachXdp w).
  assert (HR0 : R w w0) by apply R_emit.
  unfold collect_and_drain. erewrite bind_ok; [|apply emit_emitted]. fold w0.
  unfold bind at 1.
  destruct (collecting CPU_COUNT offset agg_time s w0) as [r1 w1] eqn:Ecol.
  destruct (collecting_keeps s w0 Hsz Hts HPt _ _ Ecol) as [HR1 Hsz1].
  destruct r1 as [[]|e].
  2:{ exists (Raise e), w1. split; [done|]. by transitivity w0. }
  destruct (drain CPU_COUNT offset s w1) as [r w2] eqn:Edrain.
  exists r, w2. split; [done|]. transitivity w0; [done|].
  transitivity w1; [done|]. by eapply drain_keeps.
Qed.

End EngineKeeps.

#[global] Instance cache_grows_preorder : PreOrder cache_grows.
Proof. split; [by intros w k|]. intros w1 w2 w3 H12 H23 k Hk. auto. Qed.

Lemma cache_grows_put (w w' : World) kvs :
  cache w' = put_all (cache w) kvs → cache_grows w w'.
Proof.
  intros Hc k Hk. rewrite Hc. apply lookup_put_all_is_Some. by right.
Qed.

Lemma cache_grows_step w w' : table_step w w' → cache_grows w w'.
Proof.
  intros [w0 k v Hk|w0 k v Hk Hc] k' Hk'; simpl; [|done].
  destruct (decide (k = k')) as [->|Hne].
  - rewrite lookup_insert_eq. eauto.
  - by rewrite lookup_insert_ne.
Qed.

(** From the attachment to its end, whether it returns or raises,
    [main] never deletes from the cache: every key the cache had at the
    start is still in it. *)
Theorem main_keeps_cache_keys {F : Type} `{PyFloat F}
    (CPU_COUNT : nat) (little_endian : bool) (offset : F) (agg_time : Z)
    (s : Schedule F) (w : World) :
  sized CPU_COUNT (flows w) →
  sized_schedule CPU_COUNT s →
  ∃ r w',
    main CPU_COUNT little_endian offset agg_time s w = (r, w') ∧
    ∀ k, is_Some (cache w !! k) → is_Some (cache w' !! k).
Proof.
  intros Hsz Hs.
  assert (He : ∀ w0 e, cache_grows w0 (emitted e w0)) by (by intros w0 e k).
  assert (Hc : ∀ w0 writes, True → cache_grows w0 (classified writes w0))
    by (by intros w0 writes _ k).
  destruct (engine_keeps CPU_COUNT offset agg_time cache_grows (λ _, True)
              He Hc cache_grows_step s w Hsz Hs)
    as (r0 & w1 & Hrun & Hgrow); [by apply Forall_true|done|done|].
  rewrite main_split. destruct r0 as [[]|e].
  - erewrite bind_ok; [|exact Hrun].
    erewrite bind_ok; [|apply classifier_ok].
    destruct (report_trace CPU_COUNT little_endian offset s
                (classified (unseen_arrivals s) w1))
      as (r & w2 & Hrep & _ & Hc2 & _).
    exists r, w2. split; [done|]. intros k Hk. rewrite Hc2. simpl.
    by apply Hgrow.
  - exists (Raise e), w1. split; [by erewrite bind_raise; [|exact Hrun]|done].
Qed.

(** ** A sweep cut short by Ctrl-C *)

#[global] Instance loses_nothing_preorder : PreOrder loses_nothing.
Proof.
  split.
  - intros w. split; [done|]. split; [|done]. intros k v Hk Hno. congruence.
  - intros w1 w2 w3 (Hs12 & Hm12 & Hc12) (Hs23 & Hm23 & Hc23).
    split; [by transitivity (flows w2)|]. split.
    + intros k v Hk Hno. destruct (flows w2 !! k) as [v'|] eqn:E2.
      * apply Hm23; [|done].
        rewrite map_subseteq_spec in Hs12. pose proof (Hs12 _ _ E2). congruence.
      * rewrite Hc23 by done. by apply Hm12.
    + intros k Hk. rewrite Hc23, Hc12; [done|done|].
      destruct (flows w2 !! k) as [v'|] eqn:E2; [|done].
      rewrite map_subseteq_spec in Hs12. pose proof (Hs12 _ _ E2). congruence.
Qed.

Lemma loses_nothing_step w w' : table_step w w' → loses_nothing w w'.
Proof.
  intros [w0 k v Hk|w0 k v Hk Hc].
  - split; [done|]. split.
    + intros k' v' Hk' Hno. simpl in Hno. congruence.
    + intros k' Hk'. simpl. apply lookup_insert_ne. congruence.
  - split; [apply delete_subseteq|]. split; [|done].
    intros k' v' Hk' Hno. simpl in *.
    destruct (decide (k = k')) as [<-|Hne]; [congruence|].
    rewrite lookup_delete_ne in Hno by done. congruence.
Qed.

(** A sweep that Ctrl-C cuts short, after any number of its table
    operations, raises [KeyboardInterrupt] and has lost no flow: the
    live table it leaves is a part of the one it found, every flow it
    took out of the live table is in the cache with the array it had,
    and a cache entry whose key was not live is as before. *)
Theorem interrupted_sweep_loses_no_flow {F : Type} `{PyFloat F}
    (CPU_COUNT : nat) (offset : F) (agg_time : Z) (now : F) (n : nat)
    (w : World) :
  sized CPU_COUNT (flows w) →
  ∃ w',
    sweep_flows_until CPU_COUNT n offset agg_time now w =
      (Raise KeyboardInterrupt, w') ∧
    flows w' ⊆ flows w ∧
    (∀ k v, flows w !! k = Some v → flows w' !! k = None →
            cache w' !! k = Some v) ∧
    (∀ k, flows w !! k = None → cache w' !! k = cache w !! k).
Proof.
  intros Hsz.
  destruct (sweep_until_steps CPU_COUNT offset agg_time n now w Hsz)
    as (w' & Hrun & Hsteps).
  exists w'. split; [done|].
  apply (table_steps_keep loses_nothing loses_nothing_step _ _ Hsteps).
Qed.

(** ** The report: completion, failure, order *)

Lemma size_list_to_set_le (l : list string) :
  (size (list_to_set l : gset string) ≤ length l)%nat.
Proof.
  induction l as [|x l IH].
  - by rewrite list_to_set_nil, size_empty.
  - rewrite list_to_set_cons, size_union_alt, size_singleton. simpl.
    assert (size (list_to_set l ∖ {[x]} : gset string)
            ≤ size (list_to_set l : gset string))%nat
      by (apply subseteq_size; intros y; rewrite elem_of_difference; tauto).
    lia.
Qed.


Lemma del_all_Forall (P : FlowKey → list Accm → Prop) (m : Table) kvs :
  map_Forall P m → map_Forall P (del_all m kvs).
Proof.
  revert m. induction kvs as [|[k v] kvs IH]; intros m Hm; [done|].
  apply IH. by apply map_Forall_delete.
Qed.


Section MoreReport.
Context {F : Type} `{PyFloat F}.
Variable CPU_COUNT : nat.
Variable little_endian : bool.
Variable offset : F.

Local Abbreviation row := (row_of CPU_COUNT little_endian offset).
Local Abbreviation renders_ok := (renders CPU_COUNT little_endian offset).

Lemma renders_fit_table (m : Table) :
  fit_table CPU_COUNT m → Forall renders_ok (map_to_list m).
Proof.
  intros Hm. apply Forall_forall. intros [k v] Hkv.
  apply elem_of_map_to_list in Hkv. destruct (Hm k v Hkv) as [Hr Hlen].
  apply renders_renderable; [done|]. simpl in Hlen. lia.
Qed.

(** The report on a cache whose bindings all render. *)
Lemma report_completes (s : Schedule F) w :
  open_ok s = true →
  Forall renders_ok (map_to_list (cache w)) →
  ∃ rows,
    report CPU_COUNT little_endian offset s w =
      (Ok tt, mkWorld (flows w) (cache w) (trace w ++ [EvRemoveXdp])
                      (written w ++ header :: rows)) ∧
    rows ≡ₚ elements (list_to_set (row <$> map_to_list (cache w)) : gset string) ∧
    StronglySorted by_start_time rows.
Proof.
  intros Hopen Hall.
  set (flow_set := list_to_set (row <$> map_to_list (cache w)) : gset string).
  set (w1 := emitted EvRemoveXdp w).
  destruct (sorted_ok (elements flow_set) w1) as (rows & Hsorted & Hperm & Hord).
  { apply Forall_forall. intros r Hr. apply elem_of_elements in Hr.
    unfold flow_set in Hr.
    apply elem_of_list_to_set, list_elem_of_fmap in Hr as (item & -> & _).
    rewrite row_key_row_of. eauto. }
  exists rows. split; [|done].
  unfold report. rewrite Hopen. erewrite bind_ok.
  2:{ unfold try_finally. rewrite compile_rows_ok by done. reflexivity. }
  fold flow_set. erewrite bind_ok; [|exact Hsorted].
  erewrite bind_ok; [|reflexivity]. rewrite write_loop_ok. simpl.
  by rewrite <- app_assoc.
Qed.

(** The report writes at most one row per binding of the cache, after
    the header; on an empty cache it writes the header alone. *)
Theorem report_row_count (s : Schedule F) (w : World) :
  open_ok s = true →
  fit_table CPU_COUNT (cache w) →
  ∃ rows w',
    report CPU_COUNT little_endian offset s w = (Ok tt, w') ∧
    written w' = written w ++ header :: rows ∧
    (length rows ≤ size (cache w))%nat ∧
    (cache w = ∅ → rows = []).
Proof.
  intros Hopen Hfit.
  destruct (report_completes s w Hopen (renders_fit_table _ Hfit))
    as (rows & Hrep & Hperm & _).
  assert (Hlen : (length rows ≤ size (cache w))%nat).
  { rewrite Hperm. change (length (elements ?X)) with (size X).
    etransitivity; [apply size_list_to_set_le|].
    by rewrite length_fmap, length_map_to_list. }
  eexists rows, _. split; [exact Hrep|]. split; [done|]. split; [done|].
  intros Hc. rewrite Hc, map_size_empty in Hlen. destruct rows; [done|].
  simpl in Hlen. lia.
Qed.

(** When some binding of the cache does not render (its ethertype is
    0x8100, a port or an IPv4 address is out of range, or its array is
    shorter than the CPU count), the report raises after detaching the
    classifier and writes nothing, not even the header; the tables are
    as before. *)
Theorem report_fails_as_a_whole (s : Schedule F) (w : World)
    (k : FlowKey) (v : list Accm) :
  open_ok s = true →
  cache w !! k = Some v →
  ¬ (renderable k ∧ (CPU_COUNT ≤ length v)%nat) →
  ∃ e, report CPU_COUNT little_endian offset s w =
         (Raise e, emitted EvRemoveXdp w).
Proof.
  intros Hopen Hk Hbad.
  destruct (compile_rows CPU_COUNT little_endian offset true w)
    as [r0 w0] eqn:E0.
  assert (w0 = w) as -> by (symmetry; by eapply keeps_compile_rows).
  destruct r0 as [S|e].
  - apply compile_rows_inv in E0. rewrite Forall_forall in E0.
    specialize (E0 (k, v)). destruct Hbad.
    eapply (compile_row_inv _ _ _ _ _ w); apply E0.
    by apply elem_of_map_to_list.
  - exists e. unfold report. rewrite Hopen.
    erewrite bind_raise; [done|]. unfold try_finally. by rewrite E0.
Qed.

(** When the output file cannot be opened, the report detaches the
    classifier and then raises [UnboundLocalError] from the [finally],
    which hides the error of [open]; nothing is written. *)
Theorem report_open_failure (s : Schedule F) (w : World) :
  open_ok s = false →
  report CPU_COUNT little_endian offset s w =
    (Raise UnboundLocalError, emitted EvRemoveXdp w).
Proof.
  intros Hopen. unfold report. rewrite Hopen.
  erewrite bind_raise; [done|]. reflexivity.
Qed.

(** The number a row is sorted by is the earliest start stamp of its
    flow over all shards, in wall-clock seconds: what [float] reads
    from the text of the row before its first comma is
    [start/1e9 + offset]. *)
Theorem row_sorts_by_earliest_start (attrs : FlowKey) (accms : list Accm)
    (w : World) :
  renderable attrs →
  length accms = CPU_COUNT →
  accms ≠ [] →
  Forall (λ a, 0 ≤ start a) accms →
  ∃ r m,
    compile_row CPU_COUNT little_endian offset (attrs, accms) w = (Ok r, w) ∧
    minimum (start <$> accms) = Some m ∧
    sort_key r w = (Ok (f_add (f_of_ns m) offset), w).
Proof.
  intros Hr Hlen Hne Hst. destruct accms as [|a accms]; [done|].
  destruct (merged_stamps CPU_COUNT a accms Hlen Hst) as [Es _].
  eexists _, _. split; [apply compile_row_ok; [done|lia]|]. split; [done|].
  unfold sort_key.
  pose proof (row_key_row_of CPU_COUNT little_endian offset (attrs, a :: accms))
    as Hkey.
  unfold row_key in Hkey. rewrite Hkey. simpl. by rewrite Es.
Qed.

End MoreReport.

(** ** A flow tagged 0x8100, and the whole run *)

Section MoreReport2.
Context {F : Type} `{PyFloat F}.
Variable CPU_COUNT : nat.
Variable little_endian : bool.
Variable offset : F.

Local Abbreviation renders_ok := (renders CPU_COUNT little_endian offset).

Lemma compile_row_tagged k v w :
  l2_proto k = 0x8100 → (CPU_COUNT ≤ length v)%nat →
  compile_row CPU_COUNT little_endian offset (k, v) w =
  (Raise AttributeError, w).
Proof.
  intros Hk Hlen. unfold compile_row, row_fields.
  erewrite bind_raise; [done|].
  erewrite bind_ok; [|apply merge_accms_ok; simpl; lia].
  destruct (merged CPU_COUNT (k, v).2) as [[[n_packets n_bytes] st] en].
  erewrite bind_raise; [done|]. unfold decode_addrs. simpl. by rewrite Hk.
Qed.

Lemma compile_loop_tagged (items : list (FlowKey * list Accm)) :
  Forall (λ item, renders_ok item ∨
            ∀ w, compile_row CPU_COUNT little_endian offset item w =
                 (Raise AttributeError, w)) items →
  Exists (λ item, ∀ w, compile_row CPU_COUNT little_endian offset item w =
                       (Raise AttributeError, w)) items →
  ∀ (S0 : gset string) w,
  for_in items S0 (λ flow_set item,
    let* r := compile_row CPU_COUNT little_endian offset item in
    ret ({[r]} ∪ flow_set)) w = (Raise AttributeError, w).
Proof.
  induction items as [|item items IH]; intros Hall Hex S0 w.
  - by apply Exists_nil in Hex.
  - apply Forall_cons in Hall as [[Hok|Hbad] Hall]; simpl.
    + erewrite bind_ok; [|erewrite bind_ok; [|apply Hok]; reflexivity].
      apply IH; [done|]. apply Exists_cons in Hex as [Hbad|Hex]; [|done].
      specialize (Hok w). rewrite Hbad in Hok. discriminate.
    + erewrite bind_raise; [done|]. by erewrite bind_raise; [|apply Hbad].
Qed.

(** A flow with ethertype 0x8100 in the cache aborts the report with
    [AttributeError], whatever else the cache holds that renders:
    the classifier is detached, and no row of any flow is written. *)
Theorem tagged_flow_aborts_report (s : Schedule F) (w : World)
    (k0 : FlowKey) (v0 : list Accm) :
  open_ok s = true →
  sized CPU_COUNT (cache w) →
  (∀ k v, cache w !! k = Some v → renderable k ∨ l2_proto k = 0x8100) →
  cache w !! k0 = Some v0 →
  l2_proto k0 = 0x8100 →
  report CPU_COUNT little_endian offset s w =
    (Raise AttributeError, emitted EvRemoveXdp w).
Proof.
  intros Hopen Hsz Hall Hk0 Htag.
  assert (Hrows : compile_rows CPU_COUNT little_endian offset true w =
                  (Raise AttributeError, w)).
  { unfold compile_rows. erewrite bind_ok; [|reflexivity].
    erewrite bind_ok; [|reflexivity]. apply compile_loop_tagged.
    - apply Forall_forall. intros [k v] Hkv. apply elem_of_map_to_list in Hkv.
      pose proof (Hsz k v Hkv) as Hlen. simpl in Hlen.
      destruct (Hall k v Hkv) as [Hr|Ht].
      + left. apply renders_renderable; [done|lia].
      + right. intros w'. apply compile_row_tagged; [done|lia].
    - apply Exists_exists. exists (k0, v0).
      split; [by apply elem_of_map_to_list|].
      intros w'. apply compile_row_tagged; [done|].
      pose proof (Hsz k0 v0 Hk0) as Hlen. simpl in Hlen. lia. }
  unfold report. rewrite Hopen. erewrite bind_raise; [done|].
  unfold try_finally. by rewrite Hrows.
Qed.

End MoreReport2.

#[global] Instance keeps_fit_preorder CPU_COUNT : PreOrder (keeps_fit CPU_COUNT).
Proof.
  split; [by intros w|]. intros w1 w2 w3 [E12 H12] [E23 H23].
  split; [congruence|auto].
Qed.




(** ** Byte order: what an IPv4 row shows *)

Lemma lor_shifted (hi lo n : Z) :
  0 ≤ n → 0 ≤ lo < 2 ^ n → Z.lor (Z.shiftl hi n) lo = hi * 2 ^ n + lo.
Proof.
  intros Hn Hlo.
  assert (Hland : Z.land (Z.shiftl hi n) lo = 0).
  { apply Z.bits_inj'. intros i Hi. rewrite Z.land_spec, Z.bits_0.
    destruct (decide (i < n)) as [Hlt|Hge].
    - by rewrite Z.shiftl_spec_low.
    - destruct (decide (lo = 0)) as [->|Hne];
        [by rewrite Z.bits_0, andb_false_r|].
      rewrite (Z.bits_above_log2 lo i), andb_false_r; [done|lia|].
      assert (Z.log2 lo < n) by (apply Z.log2_lt_pow2; lia). lia. }
  rewrite <- Z.lxor_lor, <- Z.add_nocarry_lxor by done.
  by rewrite Z.shiftl_mul_pow2.
Qed.

Lemma byte_of (x k b : Z) :
  0 ≤ k → 0 ≤ b < 256 → (x / 2 ^ k) mod 256 = b →
  Z.land (Z.shiftr x k) 255 = b.
Proof.
  intros Hk Hb Hx. change 255 with (Z.ones 8).
  rewrite Z.land_ones, Z.shiftr_div_pow2 by lia. exact Hx.
Qed.

Lemma bswap32_bytes (b0 b1 b2 b3 : Z) :
  0 ≤ b0 < 256 → 0 ≤ b1 < 256 → 0 ≤ b2 < 256 → 0 ≤ b3 < 256 →
  bswap32 (b0 + b1 * 2 ^ 8 + b2 * 2 ^ 16 + b3 * 2 ^ 24) =
  b0 * 2 ^ 24 + b1 * 2 ^ 16 + b2 * 2 ^ 8 + b3.
Proof.
  intros H0 H1 H2 H3. unfold bswap32.
  set (x := b0 + b1 * 2 ^ 8 + b2 * 2 ^ 16 + b3 * 2 ^ 24).
  assert (E0 : Z.land x 255 = b0).
  { rewrite <- (Z.shiftr_0_r x). apply byte_of; [lia|done|].
    unfold x. change (2 ^ 0) with 1. rewrite Z.div_1_r.
    change (2 ^ 8) with 256. change (2 ^ 16) with 65536.
    change (2 ^ 24) with 16777216. Z.div_mod_to_equations. lia. }
  assert (E1 : Z.land (Z.shiftr x 8) 255 = b1).
  { apply byte_of; [lia|done|]. unfold x.
    change (2 ^ 8) with 256. change (2 ^ 16) with 65536.
    change (2 ^ 24) with 16777216. Z.div_mod_to_equations. lia. }
  assert (E2 : Z.land (Z.shiftr x 16) 255 = b2).
  { apply byte_of; [lia|done|]. unfold x.
    change (2 ^ 8) with 256. change (2 ^ 16) with 65536.
    change (2 ^ 24) with 16777216. Z.div_mod_to_equations. lia. }
  assert (E3 : Z.land (Z.shiftr x 24) 255 = b3).
  { apply byte_of; [lia|done|]. unfold x.
    change (2 ^ 8) with 256. change (2 ^ 16) with 65536.
    change (2 ^ 24) with 16777216. Z.div_mod_to_equations. lia. }
  rewrite E0, E1, E2, E3.
  rewrite (lor_shifted b2 b3 8) by lia.
  rewrite (lor_shifted b1 _ 16) by lia.
  rewrite (lor_shifted b0 _ 24) by lia. lia.
Qed.

Lemma dotted_quad_bytes (b0 b1 b2 b3 : Z) :
  0 ≤ b0 < 256 → 0 ≤ b1 < 256 → 0 ≤ b2 < 256 → 0 ≤ b3 < 256 →
  dotted_quad (b0 * 2 ^ 24 + b1 * 2 ^ 16 + b2 * 2 ^ 8 + b3) =
  str_int b0 +:+ "." +:+ str_int b1 +:+ "." +:+ str_int b2 +:+ "." +:+
  str_int b3.
Proof.
  intros H0 H1 H2 H3. unfold dotted_quad.
  set (y := b0 * 2 ^ 24 + b1 * 2 ^ 16 + b2 * 2 ^ 8 + b3).
  assert (E0 : Z.land (Z.shiftr y 24) 255 = b0).
  { apply byte_of; [lia|done|]. unfold y.
    change (2 ^ 8) with 256. change (2 ^ 16) with 65536.
    change (2 ^ 24) with 16777216. Z.div_mod_to_equations. lia. }
  assert (E1 : Z.land (Z.shiftr y 16) 255 = b1).
  { apply byte_of; [lia|done|]. unfold y.
    change (2 ^ 8) with 256. change (2 ^ 16) with 65536.
    change (2 ^ 24) with 16777216. Z.div_mod_to_equations. lia. }
  assert (E2 : Z.land (Z.shiftr y 8) 255 = b2).
  { apply byte_of; [lia|done|]. unfold y.
    change (2 ^ 8) with 256. change (2 ^ 16) with 65536.
    change (2 ^ 24) with 16777216. Z.div_mod_to_equations. lia. }
  assert (E3 : Z.land y 255 = b3).
  { rewrite <- (Z.shiftr_0_r y). apply byte_of; [lia|done|].
    unfold y. change (2 ^ 0) with 1. rewrite Z.div_1_r.
    change (2 ^ 8) with 256. change (2 ^ 16) with 65536.
    change (2 ^ 24) with 16777216. Z.div_mod_to_equations. lia. }
  by rewrite E0, E1, E2, E3.
Qed.

Lemma bswap16_bytes (hi lo : Z) :
  0 ≤ hi < 256 → 0 ≤ lo < 256 → bswap16 (hi + lo * 2 ^ 8) = hi * 2 ^ 8 + lo.
Proof.
  intros Hhi Hlo. unfold bswap16. set (x := hi + lo * 2 ^ 8).
  assert (E0 : Z.land x 255 = hi).
  { rewrite <- (Z.shiftr_0_r x). apply byte_of; [lia|done|].
    unfold x. change (2 ^ 0) with 1. rewrite Z.div_1_r.
    change (2 ^ 8) with 256. Z.div_mod_to_equations. lia. }
  assert (E1 : Z.land (Z.shiftr x 8) 255 = lo).
  { apply byte_of; [lia|done|]. unfold x.
    change (2 ^ 8) with 256. Z.div_mod_to_equations. lia. }
  rewrite E0, E1. by rewrite lor_shifted by lia.
Qed.

Lemma host32_wire le b0 b1 b2 b3 :
  is_byte b0 → is_byte b1 → is_byte b2 → is_byte b3 →
  host32 le (wire32 le b0 b1 b2 b3) =
  b0 * 2 ^ 24 + b1 * 2 ^ 16 + b2 * 2 ^ 8 + b3.
Proof.
  intros. destruct le; simpl; [by apply bswap32_bytes|done].
Qed.

Lemma host16_wire le b0 b1 :
  is_byte b0 → is_byte b1 → host16 le (wire16 le b0 b1) = b0 * 2 ^ 8 + b1.
Proof. intros. destruct le; simpl; [by apply bswap16_bytes|done]. Qed.

Lemma wire32_range le b0 b1 b2 b3 :
  is_byte b0 → is_byte b1 → is_byte b2 → is_byte b3 →
  0 ≤ wire32 le b0 b1 b2 b3 < 2 ^ 32.
Proof. unfold is_byte, wire32. intros. destruct le; lia. Qed.

Lemma wire16_range le b0 b1 :
  is_byte b0 → is_byte b1 → 0 ≤ wire16 le b0 b1 < 2 ^ 16.
Proof. unfold is_byte, wire16. intros. destruct le; lia. Qed.

(** On a host of either byte order, the row of an IPv4 flow shows the
    addresses as the dotted quads of their four bytes in the order the
    classifier stored them (the order on the wire), and the ports as
    the numbers whose high byte is stored first. *)
Theorem ipv4_row_shows_wire_bytes {F : Type} `{PyFloat F}
    (CPU_COUNT : nat) (little_endian : bool) (offset : F)
    (l4 s0 s1 s2 s3 d0 d1 d2 d3 sp0 sp1 dp0 dp1 : Z)
    (accms : list Accm) (w : World) :
  Forall is_byte [s0; s1; s2; s3; d0; d1; d2; d3; sp0; sp1; dp0; dp1] →
  length accms = CPU_COUNT →
  ∃ fields,
    row_fields CPU_COUNT little_endian offset
      (mkFlowKey 0x0800 l4
         (wire32 little_endian s0 s1 s2 s3) (wire32 little_endian d0 d1 d2 d3)
         (wire16 little_endian sp0 sp1) (wire16 little_endian dp0 dp1),
       accms) w = (Ok fields, w) ∧
    fields !! 2%nat = Some (quad s0 s1 s2 s3) ∧
    fields !! 3%nat = Some (quad d0 d1 d2 d3) ∧
    fields !! 4%nat = Some (str_int (sp0 * 256 + sp1)) ∧
    fields !! 5%nat = Some (str_int (dp0 * 256 + dp1)) ∧
    fields !! 6%nat = Some "0x800".
Proof.
  intros Hb Hlen.
  repeat (apply Forall_cons in Hb as [? Hb]).
  eexists. split.
  - apply row_fields_ok; [|lia]. split; [done|]. simpl.
    split; [intros _; split; by apply wire32_range|].
    split; by apply wire16_range.
  - unfold fields_of, addr_fields. simpl.
    rewrite !host32_wire, !host16_wire by done.
    rewrite !dotted_quad_bytes by done. done.
Qed.

(** ** Arguments and the length of the sleep *)

Section WholeMainFacts.
Context {F : Type} `{PyFloat F}.
Variable CPU_COUNT : nat.
Variable little_endian : bool.



End WholeMainFacts.

(** ** The merged stamps, and the file *)

Lemma foldl_min_le_max (l : list Accm) s e :
  s ≤ e → Forall (λ a, start a ≤ end_ a) l →
  foldl Z.min s (start <$> l) ≤ foldl Z.max e (end_ <$> l).
Proof.
  revert s e. induction l as [|a l IH]; intros s e Hse Hl; simpl; [done|].
  apply Forall_cons in Hl as [Ha Hl]. apply IH; [lia|done].
Qed.

(** When on every shard the start stamp is not after the end stamp,
    the merged start is not after the merged end. *)
Theorem merged_start_before_end (CPU_COUNT : nat) (accms : list Accm)
    (w : World) :
  length accms = CPU_COUNT →
  accms ≠ [] →
  Forall (λ a, 0 ≤ start a) accms →
  Forall (λ a, start a ≤ end_ a) accms →
  ∃ v, merge_accms CPU_COUNT accms w = (Ok v, w) ∧ view_start v ≤ view_end v.
Proof.
  intros Hlen Hne Hst Hse. exists (merged CPU_COUNT accms).
  split; [apply merge_accms_ok; lia|].
  destruct accms as [|a accms]; [done|].
  destruct (merged_stamps CPU_COUNT a accms Hlen Hst) as [-> ->].
  apply Forall_cons in Hse as [Ha Hse]. by apply foldl_min_le_max.
Qed.

Section FileFacts.
Context {F : Type} `{PyFloat F}.
Variable CPU_COUNT : nat.
Variable little_endian : bool.
Variable offset : F.

(** The report reads the cache and changes neither table; it either
    returns, having written the header and then rows, or raises having
    written no line at all. *)
Theorem report_all_or_nothing (s : Schedule F) (w : World) :
  ∃ r w',
    report CPU_COUNT little_endian offset s w = (r, w') ∧
    flows w' = flows w ∧ cache w' = cache w ∧
    match r with
    | Ok _ => ∃ rows, written w' = written w ++ header :: rows
    | Raise _ => written w' = written w
    end.
Proof.
  unfold report.
  destruct (compile_rows CPU_COUNT little_endian offset (open_ok s) w)
    as [r0 w0] eqn:E0.
  assert (w0 = w) as -> by (symmetry; by eapply keeps_compile_rows).
  set (w1 := emitted EvRemoveXdp w).
  assert (Htf : ∃ r1, try_finally
            (compile_rows CPU_COUNT little_endian offset (open_ok s))
            (teardown (open_ok s)) w = (r1, w1)).
  { unfold try_finally. rewrite E0. unfold teardown, bind, emit.
    destruct (open_ok s), r0; simpl; eexists; reflexivity. }
  destruct Htf as (r1 & Htf). unfold bind at 1. rewrite Htf.
  destruct r1 as [flow_set|e]; [|by exists (Raise e), w1].
  destruct (stateless_sorted (F:=F) (elements flow_set)) as [r2 Hr2].
  unfold bind at 1. rewrite Hr2.
  destruct r2 as [s_flow_set|e]; [|by exists (Raise e), w1].
  erewrite bind_ok; [|reflexivity]. rewrite write_loop_ok.
  eexists _, _. split; [reflexivity|]. simpl. split; [done|]. split; [done|].
  exists s_flow_set. by rewrite <- app_assoc.
Qed.

End FileFacts.
(** ** A row read back *)

(** Every row is the text of exactly ten fields joined by commas and
    ended by a newline, and no field holds a comma: splitting the text
    before the newline at the commas gives the ten fields back. *)
Theorem row_splits_into_its_fields {F : Type} `{PyFloat F}
    (CPU_COUNT : nat) (little_endian : bool) (offset : F)
    (attrs : FlowKey) (accms : list Accm) (w : World) :
  renderable attrs →
  length accms = CPU_COUNT →
  ∃ fields line,
    row_fields CPU_COUNT little_endian offset (attrs, accms) w =
      (Ok fields, w) ∧
    compile_row CPU_COUNT little_endian offset (attrs, accms) w =
      (Ok (line +:+ newline), w) ∧
    length fields = 10%nat ∧
    split_at "," line = fields.
Proof.
  intros Hr Hlen. eexists _, _.
  split; [apply row_fields_ok; [done|lia]|].
  split; [apply compile_row_ok; [done|lia]|]. split; [done|].
  apply fields_of_split.
Qed.

(** ** The further properties on concrete inputs *)

Lemma lookup_live_a k accms :
  flows live_a !! k = Some accms → k = key_a ∧ accms = one_shard.
Proof.
  simpl. intros Hk. by apply lookup_singleton_Some in Hk as [<- <-].
Qed.

Lemma sweep_without_old_flows_witness :
  _sweep_flows 1 (0 : Z) 60 100000000000 live_a = (Ok tt, live_a).
Proof.
  apply sweep_without_old_flows; [apply sized_live_a|].
  intros k accms Hk. apply lookup_live_a in Hk as [-> ->]. reflexivity.
Defined.

Lemma sweep_twice_witness :
  ∃ w', _sweep_flows 1 (0 : Z) 60 200000000000 live_ab = (Ok tt, w') ∧
    _sweep_flows 1 (0 : Z) 60 200000000000 w' = (Ok tt, w').
Proof. apply sweep_twice, sized_live_ab. Defined.

(** The first of the two sweeps moves [key_a] and leaves [key_b] in the
    live table, which the second sweep scans again. *)
Example sweep_twice_on_live_ab :
  let w' := (_sweep_flows 1 (0 : Z) 60 200000000000 live_ab).2 in
  flows w' !! key_b = Some fresh_shard ∧
  cache w' !! key_a = Some one_shard ∧
  trace (_sweep_flows 1 (0 : Z) 60 200000000000 w').2 =
    [EvCacheSet key_a one_shard; EvFlowsDel key_a].
Proof. vm_compute. repeat split. Qed.

Lemma sweep_short_array_witness :
  _sweep_flows 2 (0 : Z) 60 200000000000 live_a = (Raise IndexError, live_a).
Proof.
  apply (sweep_short_array 2 (0 : Z) 60 200000000000 live_a key_a one_shard);
    [apply lookup_singleton_eq|simpl; lia].
Defined.

Lemma sweep_keeps_apart_witness :
  ∃ w', _sweep_flows 1 (0 : Z) 60 200000000000 live_a = (Ok tt, w') ∧ apart w'.
Proof.
  apply sweep_keeps_apart; [apply sized_live_a|apply map_disjoint_empty_r].
Defined.

Lemma sweep_only_moves_witness :
  ∃ w', _sweep_flows 1 (0 : Z) 60 200000000000 live_a = (Ok tt, w') ∧
    flows w' ⊆ flows live_a ∧
    cache_grows live_a w' ∧
    (∀ k, flows live_a !! k = None → cache w' !! k = cache live_a !! k).
Proof. apply sweep_only_moves, sized_live_a. Defined.

Lemma slots_beyond_cpu_count_ignored_witness :
  merge_accms 1 (one_shard ++ two_shards) empty_world =
    merge_accms 1 one_shard empty_world ∧
  recent_stamp_of 1 (one_shard ++ two_shards) empty_world =
    recent_stamp_of 1 one_shard empty_world.
Proof. apply slots_beyond_cpu_count_ignored. reflexivity. Defined.

Lemma reswept_flow_keeps_last_array_witness :
  ∃ w1 w2,
    _sweep_flows 1 (0 : Z) 60 200000000000 live_a = (Ok tt, w1) ∧
    cache w1 !! key_a = Some one_shard ∧
    (classifier [(key_a, [mkAccm 2 120 300000000000 301000000000])] ;;
     _sweep_flows 1 (0 : Z) 60 400000000000) w1 = (Ok tt, w2) ∧
    cache w2 !! key_a = Some [mkAccm 2 120 300000000000 301000000000] ∧
    flows w2 !! key_a = None.
Proof.
  apply reswept_flow_keeps_last_array;
    [apply sized_live_a|apply lookup_singleton_eq|reflexivity|reflexivity
    |reflexivity].
Defined.

Lemma drain_copies_live_arrays_witness :
  ∃ w', drain 1 (0 : Z) zero_idle_run live_a = (Ok tt, w') ∧
    ∀ k v, flows w' !! k = Some v → cache w' !! k = Some v.
Proof.
  apply drain_copies_live_arrays; [reflexivity|apply sized_live_a|constructor].
Defined.

(** In that drain the forced sweep leaves [key_a], idle for 0 s, in the
    live table, and the transfer copies its array. *)
Example drain_of_zero_idle_run :
  let w' := (drain 1 (0 : Z) zero_idle_run live_a).2 in
  flows w' !! key_a = Some one_shard ∧
  cache w' !! key_a = Some one_shard ∧
  trace w' = [EvCacheSet key_a one_shard].
Proof. vm_compute. repeat split. Qed.

Lemma main_keeps_cache_keys_witness :
  ∃ r w',
    main 1 true (0 : Z) 60 quiet_run cached_bc = (r, w') ∧
    ∀ k, is_Some (cache cached_bc !! k) → is_Some (cache w' !! k).
Proof.
  apply main_keeps_cache_keys; [apply sized_empty|apply sized_quiet_run].
Defined.

Lemma fit_one_shard k : renderable k → fit 1 (k, one_shard).
Proof. by split. Qed.

Lemma fit_cached_bc : fit_table 1 (cache cached_bc).
Proof.
  apply map_Forall_insert_2; [apply fit_one_shard, renderable_key_b|].
  apply map_Forall_singleton, fit_one_shard, renderable_key_c.
Qed.

Lemma report_row_count_witness :
  ∃ rows w',
    report 1 true (0 : Z) quiet_run cached_bc = (Ok tt, w') ∧
    written w' = written cached_bc ++ header :: rows ∧
    (length rows ≤ size (cache cached_bc))%nat ∧
    (cache cached_bc = ∅ → rows = []).
Proof. apply report_row_count; [reflexivity|apply fit_cached_bc]. Defined.

Lemma report_fails_as_a_whole_witness :
  ∃ e, report 1 true (0 : Z) quiet_run cached_d =
         (Raise e, emitted EvRemoveXdp cached_d).
Proof.
  apply (report_fails_as_a_whole 1 true (0 : Z) quiet_run cached_d
           key_d one_shard);
    [reflexivity|apply lookup_singleton_eq|].
  intros [[Hne _] _]. by apply Hne.
Defined.

Lemma report_open_failure_witness :
  report 1 true (0 : Z) unwritable_run cached_bc =
    (Raise UnboundLocalError, emitted EvRemoveXdp cached_bc).
Proof. apply report_open_failure. reflexivity. Defined.

Lemma row_sorts_by_earliest_start_witness :
  ∃ r m,
    compile_row 2 true (0 : Z) (key_a, two_shards) empty_world =
      (Ok r, empty_world) ∧
    minimum (start <$> two_shards) = Some m ∧
    sort_key r empty_world = (Ok (f_add (f_of_ns m) (0 : Z)), empty_world).
Proof.
  apply row_sorts_by_earliest_start;
    [apply renderable_key_a|reflexivity|discriminate
    |repeat constructor; simpl; lia].
Defined.

Lemma tagged_flow_aborts_report_witness :
  report 1 true (0 : Z) quiet_run cached_d =
    (Raise AttributeError, emitted EvRemoveXdp cached_d).
Proof.
  apply (tagged_flow_aborts_report 1 true (0 : Z) quiet_run cached_d
           key_d one_shard).
  - reflexivity.
  - apply map_Forall_singleton. reflexivity.
  - intros k v Hk. simpl in Hk. apply lookup_singleton_Some in Hk as [<- _].
    by right.
  - apply lookup_singleton_eq.
  - reflexivity.
Defined.




Lemma ipv4_row_shows_wire_bytes_witness :
  ∃ fields,
    row_fields 1 true (0 : Z)
      (mkFlowKey 0x0800 6
         (wire32 true 192 168 0 1) (wire32 true 10 0 0 1)
         (wire16 true 0 80) (wire16 true 1 187),
       one_shard) empty_world = (Ok fields, empty_world) ∧
    fields !! 2%nat = Some (quad 192 168 0 1) ∧
    fields !! 3%nat = Some (quad 10 0 0 1) ∧
    fields !! 4%nat = Some (str_int (0 * 256 + 80)) ∧
    fields !! 5%nat = Some (str_int (1 * 256 + 187)) ∧
    fields !! 6%nat = Some "0x800".
Proof.
  apply ipv4_row_shows_wire_bytes; [|reflexivity].
  repeat constructor; unfold is_byte; lia.
Defined.



Lemma merged_start_before_end_witness :
  ∃ v, merge_accms 2 two_shards empty_world = (Ok v, empty_world) ∧
    view_start v ≤ view_end v.
Proof.
  apply merged_start_before_end;
    [reflexivity|discriminate|repeat constructor; simpl; lia
    |repeat constructor; simpl; lia].
Defined.

Lemma row_splits_into_its_fields_witness :
  ∃ fields line,
    row_fields 2 true (0 : Z) (key_a, two_shards) empty_world =
      (Ok fields, empty_world) ∧
    compile_row 2 true (0 : Z) (key_a, two_shards) empty_world =
      (Ok (line +:+ newline), empty_world) ∧
    length fields = 10%nat ∧
    split_at "," line = fields.
Proof.
  apply row_splits_into_its_fields; [apply renderable_key_a|reflexivity].
Defined.

Lemma interrupted_sweep_loses_no_flow_witness :
  ∃ w',
    sweep_flows_until 1 3 (0 : Z) 0 201000000000 live_ab =
      (Raise KeyboardInterrupt, w') ∧
    flows w' ⊆ flows live_ab ∧
    (∀ k v, flows live_ab !! k = Some v → flows w' !! k = None →
            cache w' !! k = Some v) ∧
    (∀ k, flows live_ab !! k = None → cache w' !! k = cache live_ab !! k).
Proof. apply interrupted_sweep_loses_no_flow, sized_live_ab. Defined.

(** In that sweep Ctrl-C comes when [key_a] has been moved and [key_b]
    has been stored in the cache and not yet deleted from the live
    table. *)
Example sweep_cut_after_three_operations :
  let w' := (sweep_flows_until 1 3 (0 : Z) 0 201000000000 live_ab).2 in
  trace w' = [EvCacheSet key_a one_shard; EvFlowsDel key_a;
              EvCacheSet key_b fresh_shard] ∧
  flows w' !! key_a = None ∧
  flows w' !! key_b = Some fresh_shard ∧
  cache w' !! key_b = Some fresh_shard.
Proof. vm_compute. repeat split. Qed.
